(** * vuex-orm [Model]: field descriptors, foreign-key repair,
      instantiation and serialization

    A shallow embedding of [src/Model.ts] and of the descriptor factories
    of [Attributes.ts].  JavaScript values are an inductive type, plain
    objects and model instances are association lists of their own
    properties in enumeration order, exceptions are an error result, and
    the one place where the code writes into an object that may outlive
    the call ([newFields[key].value = value] in [$mergeFields]) goes
    through an explicit store of retained descriptor objects.

    A model instance reads its methods through its prototype chain, and
    [$initialize] assigns the declared fields to the instance itself: a
    field named like a method takes the method's place from then on.  The
    object that [mutators()] returns is read through [Object.prototype]
    in the same way.  Both are part of the embedding ([instance_self],
    [instance_resolveRelation], [mutators_get]).  The accessor
    [__proto__] is not: a property of that name is treated like any
    other. *)

From Stdlib Require Import List String Ascii ZArith Bool Lia.
Import ListNotations.
Local Open Scope string_scope.
Local Open Scope list_scope.

Set Warnings "-register-all".

(** ** JavaScript values *)

(** Classes are referred to by identity; [class_id] indexes a class table. *)
Definition class_id := nat.

(** Addresses of descriptor objects that a [fields()] body keeps between
    calls. *)
Definition loc := nat.

(** A JS number is, for this code, either [NaN] or a number that is
    [=== 0] or not; the integers stand for the latter two. *)
Inductive number : Type :=
| NaN
| Num (z : Z).

(** The primitives that have a wrapper object. *)
Inductive primitive : Type :=
| PBool (b : bool)
| PNum (n : number)
| PStr (s : string).

(** [VBox p] is the wrapper object [Object(p)] of a primitive ([new
    String('F')], say): data never contains one, but [Object], which a
    plain object inherits as [constructor], makes one. *)
Inductive value : Type :=
| VUndef
| VNull
| VBool (b : bool)
| VNum (n : number)
| VStr (s : string)
| VArr (l : list value)
| VObj (o : list (string * value))
| VInst (c : class_id) (o : list (string * value))
| VBox (p : primitive).

(** A plain object, a [Record] or the own properties of a model instance:
    keys in enumeration order (insertion order for the names used here). *)
Definition object := list (string * value).

(** [Records] and [NormalizedData] of [Data.ts]. *)
Definition Records := list (string * object).
Definition NormalizedData := list (string * Records).

(** ** Exceptions and the store *)

Inductive error : Type :=
| TypeError          (* property read on null/undefined, call of a non-function *)
| UnknownModel.      (* the container has no model under the name *)

Inductive result (A : Type) : Type :=
| Ok (a : A)
| Throw (e : error)
| OutOfFuel.

Arguments Ok {A} a.
Arguments Throw {A} e.
Arguments OutOfFuel {A}.

Definition rbind {A B} (r : result A) (k : A -> result B) : result B :=
  match r with
  | Ok a => k a
  | Throw e => Throw e
  | OutOfFuel => OutOfFuel
  end.

(** The [value] property of every retained descriptor object that has been
    written so far; a descriptor not listed still has the value it was
    created with. *)
Definition store := list (loc * value).

Fixpoint store_get (st : store) (l : loc) : option value :=
  match st with
  | [] => None
  | (l', v) :: st' => if Nat.eqb l l' then Some v else store_get st' l
  end.

Definition store_set (st : store) (l : loc) (v : value) : store :=
  (l, v) :: st.

(** Computations that may throw and may write descriptor values. *)
Definition M (A : Type) : Type := store -> result (A * store).

Definition ret {A} (a : A) : M A := fun st => Ok (a, st).

Definition throw {A} (e : error) : M A := fun _ => Throw e.

Definition bind {A B} (m : M A) (k : A -> M B) : M B :=
  fun st =>
    match m st with
    | Ok (a, st') => k a st'
    | Throw e => Throw e
    | OutOfFuel => OutOfFuel
    end.

Definition lift {A} (r : result A) : M A :=
  fun st => rbind r (fun a => Ok (a, st)).

Declare Scope js_scope.
Delimit Scope js_scope with js.
Notation "x <- m ;; k" := (bind m (fun x => k))
  (at level 61, m at next level, right associativity) : js_scope.
Notation "x <-? r ;; k" := (rbind r (fun x => k))
  (at level 61, r at next level, right associativity) : js_scope.
Local Open Scope js_scope.

Fixpoint mapM {A B} (f : A -> M B) (l : list A) : M (list B) :=
  match l with
  | [] => ret []
  | x :: l' => y <- f x ;; ys <- mapM f l' ;; ret (y :: ys)
  end.

Definition rmap {A B} (f : A -> result B) : list A -> result (list B) :=
  fix go (l : list A) : result (list B) :=
    match l with
    | [] => Ok []
    | x :: l' => y <-? f x ;; ys <-? go l' ;; Ok (y :: ys)
    end.

(** ** Property access and truthiness *)

(** The own property [k] of an object.  Where the code reads a member
    that an object may inherit instead, the definitions below say so. *)
Fixpoint lookup {A} (k : string) (o : list (string * A)) : option A :=
  match o with
  | [] => None
  | (k', a) :: o' => if String.eqb k k' then Some a else lookup k o'
  end.

(** [o[k]] on an object: [undefined] for a missing property. *)
Definition get (o : object) (k : string) : value :=
  match lookup k o with
  | Some v => v
  | None => VUndef
  end.

(** [o[k] = v]: an existing property keeps its place, a new one is added
    last.  (An object lists a new key made of digits among the first and
    takes [__proto__] for its prototype, not for a property: neither is
    told apart here.) *)
Fixpoint set {A} (o : list (string * A)) (k : string) (v : A)
  : list (string * A) :=
  match o with
  | [] => [(k, v)]
  | (k', a) :: o' =>
      if String.eqb k k' then (k', v) :: o' else (k', a) :: set o' k v
  end.

Definition keys {A} (o : list (string * A)) : list string := map fst o.

(** JS truthiness ([if (x)], [!x], [x ? a : b], [a || b]). *)
Definition truthy (v : value) : bool :=
  match v with
  | VUndef | VNull => false
  | VBool b => b
  | VNum NaN => false
  | VNum (Num z) => negb (Z.eqb z 0)
  | VStr s => negb (String.eqb s "")
  | VArr _ | VObj _ | VInst _ _ | VBox _ => true
  end.

(** [v === null] *)
Definition is_null (v : value) : bool :=
  match v with VNull => true | _ => false end.

(** [v[0]]: throws on [null] and [undefined]; the first element of an
    array, the first character of a string or of a wrapped string, the
    property ["0"] of an object, [undefined] on the other primitives and
    their wrappers. *)
Definition index0 (v : value) : result value :=
  match v with
  | VUndef | VNull => Throw TypeError
  | VArr [] => Ok VUndef
  | VArr (x :: _) => Ok x
  | VStr EmptyString | VBox (PStr EmptyString) => Ok VUndef
  | VStr (String a _) | VBox (PStr (String a _)) =>
      Ok (VStr (String a EmptyString))
  | VObj o | VInst _ o => Ok (get o "0")
  | VBool _ | VNum _ | VBox (PBool _) | VBox (PNum _) => Ok VUndef
  end.

(** ** What objects inherit *)

(** The members of [Object.prototype], which every plain object and every
    instance inherits, and those of [Model.prototype]. *)
Definition Object_prototype : list string :=
  ["constructor"; "hasOwnProperty"; "isPrototypeOf"; "propertyIsEnumerable";
   "toLocaleString"; "toString"; "valueOf"; "__defineGetter__";
   "__defineSetter__"; "__lookupGetter__"; "__lookupSetter__"; "__proto__"].

Definition Model_prototype : list string :=
  ["constructor"; "$self"; "$id"; "$fields"; "$initialize"; "$mergeFields";
   "$resolveRelation"; "$toJson"].

(** [v] is an object, not a primitive. *)
Definition is_object (v : value) : bool :=
  match v with
  | VArr _ | VObj _ | VInst _ _ | VBox _ => true
  | _ => false
  end.

(** [Object(v)]: a new empty object for [undefined] and [null], the
    wrapper of a primitive, an object itself. *)
Definition Object_ (v : value) : value :=
  match v with
  | VUndef | VNull => VObj []
  | VBool b => VBox (PBool b)
  | VNum n => VBox (PNum n)
  | VStr s => VBox (PStr s)
  | _ => v
  end.

(** The member [name] of [Object.prototype] called as a plain function,
    [f(v)], so without receiver: [toString] answers for [undefined];
    [constructor] is [Object]; [isPrototypeOf] answers [false] for a
    primitive argument before it looks at the receiver; [__proto__] is
    no function but the prototype; every other member fails to make an
    object of the missing receiver. *)
Definition Object_prototype_call (name : string) (v : value) : result value :=
  if String.eqb name "toString" then Ok (VStr "[object Undefined]")
  else if String.eqb name "constructor" then Ok (Object_ v)
  else if String.eqb name "isPrototypeOf" then
    if is_object v then Throw TypeError else Ok (VBool false)
  else Throw TypeError.

(** [v.type]: throws on [null] and [undefined]; no array, string, number
    or boolean has a property of that name. *)
Definition get_type (v : value) : result value :=
  match v with
  | VUndef | VNull => Throw TypeError
  | VObj o | VInst _ o => Ok (get o "type")
  | _ => Ok VUndef
  end.

(** ** The helpers of [support/lodash] *)

(** Modelled from the spec: [support/lodash] is not among the sources; its
    helpers are taken as the spec uses them: [forEach] and [mapValues]
    visit every own property of a plain object in order, [keys] lists
    them, [includes] is membership, and the [is*] tests follow [typeof]. *)
Module Lodash.

Definition isNumber (v : value) : bool :=
  match v with VNum _ => true | _ => false end.

Definition isArray (v : value) : bool :=
  match v with VArr _ => true | _ => false end.

Definition includes (ks : list string) (k : string) : bool :=
  existsb (String.eqb k) ks.

(** [_.mapValues(o, f)], [f] receiving value and key. *)
Definition mapValues {A B} (f : A -> string -> B) (o : list (string * A))
  : list (string * B) :=
  map (fun kv => (fst kv, f (snd kv) (fst kv))) o.

(** [mapValues] with a callback that may throw. *)
Definition mapValuesR {A B} (f : A -> string -> result B)
  : list (string * A) -> result (list (string * B)) :=
  rmap (fun kv => b <-? f (snd kv) (fst kv) ;; Ok (fst kv, b)).

(** [_.forEach(o, f)] for a callback that updates a local variable of
    type [S]. *)
Definition forEach {A S} (f : S -> A -> string -> S) (o : list (string * A))
  (s : S) : S :=
  fold_left (fun s kv => f s (snd kv) (fst kv)) o s.

(** [forEach] with a callback that may throw or write the store. *)
Fixpoint forEachM {A S} (f : S -> A -> string -> M S) (o : list (string * A))
  (s : S) : M S :=
  match o with
  | [] => ret s
  | (k, a) :: o' => s' <- f s a k ;; forEachM f o' s'
  end.

(** The own properties [forEach] walks when handed an arbitrary value as
    a [Record]: those of an object or a model instance.  An array or a
    string is walked by numeric index, which is never a field name, and
    the other primitives have nothing to walk. *)
Definition entries (v : value) : object :=
  match v with
  | VObj o | VInst _ o => o
  | _ => []
  end.

End Lodash.

(** ** Field descriptors ([Attributes.ts]) *)

Inductive AttrType : Type :=
| TAttr | THasOne | TBelongsTo | THasMany | THasManyBy.

Definition Function := value -> value.

(** [typeof Model | string] *)
Definition target : Type := (class_id + string)%type.

Inductive Attrs : Type :=
| Attr (value : value) (mutator : option Function)
| HasOne (model : target) (foreignKey : string) (value : value)
    (polymorphic : bool)
| BelongsTo (model : target) (foreignKey : string) (value : value)
    (polymorphic : bool)
| HasMany (model : target) (foreignKey : string) (value : value)
    (polymorphic : bool)
| HasManyBy (model : target) (foreignKey : string) (otherKey : string)
    (value : value) (polymorphic : bool).

Definition Fields := list (string * Attrs).
Definition Mutators := list (string * Function).

(** What [mutators()[key]] may be: a function of the program, or the
    member of [Object.prototype] of that name. *)
Inductive callee : Type :=
| Own (f : Function)
| Inherited (name : string).

Definition call (f : callee) (v : value) : result value :=
  match f with
  | Own f => Ok (f v)
  | Inherited name => Object_prototype_call name v
  end.

(** [mutators[key]] on the plain object that [mutators()] returns. *)
Definition mutators_get (mutators : Mutators) (key : string)
  : option callee :=
  match lookup key mutators with
  | Some f => Some (Own f)
  | None =>
      if Lodash.includes Object_prototype key then Some (Inherited key)
      else None
  end.

Module Attributes.

Definition attr (value : value) (mutator : option Function) : Attrs :=
  Attr value mutator.

Definition hasOne (model : target) (foreignKey : string)
  (polymorphic : bool) : Attrs :=
  HasOne model foreignKey VNull polymorphic.

Definition belongsTo (model : target) (foreignKey : string)
  (polymorphic : bool) : Attrs :=
  BelongsTo model foreignKey VNull polymorphic.

Definition hasMany (model : target) (foreignKey : string)
  (polymorphic : bool) : Attrs :=
  HasMany model foreignKey VNull polymorphic.

Definition hasManyBy (model : target) (foreignKey : string)
  (otherKey : option string) (polymorphic : bool) : Attrs :=
  HasManyBy model foreignKey
    (match otherKey with Some k => k | None => "id" end) VNull polymorphic.

Definition type (a : Attrs) : AttrType :=
  match a with
  | Attr _ _ => TAttr
  | HasOne _ _ _ _ => THasOne
  | BelongsTo _ _ _ _ => TBelongsTo
  | HasMany _ _ _ _ => THasMany
  | HasManyBy _ _ _ _ _ => THasManyBy
  end.

(** [a.value = v] *)
Definition set_value (a : Attrs) (v : value) : Attrs :=
  match a with
  | Attr _ m => Attr v m
  | HasOne t fk _ p => HasOne t fk v p
  | BelongsTo t fk _ p => BelongsTo t fk v p
  | HasMany t fk _ p => HasMany t fk v p
  | HasManyBy t fk ok _ p => HasManyBy t fk ok v p
  end.

Definition value (a : Attrs) : value :=
  match a with
  | Attr v _ => v
  | HasOne _ _ v _ | BelongsTo _ _ v _ | HasMany _ _ v _
  | HasManyBy _ _ _ v _ => v
  end.

Definition isRelation (a : Attrs) : bool :=
  match type a with TAttr => false | _ => true end.

End Attributes.

(** ** Entity definitions ([class ... extends Model]) *)

(** The static side of a model class.  [fields] is what the body of
    [fields()] builds, [mutators] what [mutators()] returns.  [retained]
    lists the fields whose descriptor object the body does not build anew
    but hands out again on every call, with the address of that object;
    the overrides written with the factories ([return { id: this.attr(null) }])
    and the base class ([return {}]) have none. *)
Record Model : Type := {
  connection : string;
  entity : string;
  primaryKey : string;
  fields : Fields;
  mutators : Mutators;
  retained : list (string * loc)
}.

(** [class Model] itself. *)
Definition base_Model : Model :=
  {| connection := ""; entity := ""; primaryKey := "id";
     fields := []; mutators := []; retained := [] |}.

(** [Schema.one] / [Schema.many] and [Data.normalize] are in files that
    are not among the sources; [normalize] takes them as parameters. *)
Record Normalizr (Schema : Type) : Type := {
  Schema_one : class_id -> Schema;
  Schema_many : class_id -> Schema;
  Data_normalize : value -> Schema -> NormalizedData
}.

Arguments Schema_one {Schema} _ _.
Arguments Schema_many {Schema} _ _.
Arguments Data_normalize {Schema} _ _ _.

Section Model.

(** The classes of the program, by identity. *)
Variable classes : class_id -> Model.

(** Modelled from the spec: [Container.connection(c).model(name)], the
    registry of [connections/Container], is not among the sources.  It
    maps a connection and a model name to a class; an unknown name is a
    fatal error. *)
Variable container : string -> string -> option class_id.

(** *** Relation resolution *)

(** [static relation (name)] called on class [c]. *)
Definition relation (c : class_id) (name : value) : result class_id :=
  match name with
  | VStr s =>
      match container (connection (classes c)) s with
      | Some m => Ok m
      | None => Throw UnknownModel
      end
  | _ => Throw UnknownModel
  end.

(** [attr.polymorphic], [attr.model] of a relation descriptor. *)
Definition polymorphic (attr : Attrs) : bool :=
  match attr with
  | Attr _ _ => false
  | HasOne _ _ _ p | BelongsTo _ _ _ p | HasMany _ _ _ p
  | HasManyBy _ _ _ _ p => p
  end.

Definition model_of (attr : Attrs) : option target :=
  match attr with
  | Attr _ _ => None
  | HasOne t _ _ _ | BelongsTo t _ _ _ | HasMany t _ _ _
  | HasManyBy t _ _ _ _ => Some t
  end.

Definition foreignKey (attr : Attrs) : string :=
  match attr with
  | Attr _ _ => ""
  | HasOne _ fk _ _ | BelongsTo _ fk _ _ | HasMany _ fk _ _
  | HasManyBy _ fk _ _ _ => fk
  end.

(** [static resolveRelation (attr)] called on class [c]. *)
Definition resolveRelation (c : class_id) (attr : Attrs) : result class_id :=
  if polymorphic attr then
    name <-? get_type (Attributes.value attr) ;; relation c name
  else
    match model_of attr with
    | Some (inr name) => relation c (VStr name)
    | Some (inl model) => Ok model
    | None => Throw TypeError
    end.

(** *** Normalization *)

(** The callback of the inner [_.forEach] of [attachForeignKeys]:
    [newRecord] is the local it assigns to. *)
Definition attachForeignKey (fields : Fields) (newRecord : object)
  (value : value) (field : string) : object :=
  match lookup field fields with
  | None => newRecord
  | Some attr =>
      match Attributes.type attr with
      | TAttr => newRecord
      | TBelongsTo =>
          let key := foreignKey attr in
          if truthy (get newRecord key) then newRecord
          else set newRecord key value
      | _ => newRecord
      end
  end.

(** The callback of [_.mapValues(records, ...)]: one record. *)
Definition attachRecord (fields : Fields) (record : object) : object :=
  let newRecord := record in
  Lodash.forEach (attachForeignKey fields) record newRecord.

(** [static attachForeignKeys (records, model)].  Of [model.fields()] it
    reads [type] and [foreignKey] only, which nothing ever assigns. *)
Definition attachForeignKeys (records : Records) (model : class_id)
  : Records :=
  let fields := fields (classes model) in
  Lodash.mapValues (fun record _ => attachRecord fields record) records.

(** [static schema (many)] and [static normalize (data)] on class [c]. *)
Definition schema {Schema} (N : Normalizr Schema) (c : class_id)
  (many : bool) : Schema :=
  if many then Schema_many N c else Schema_one N c.

Definition normalize {Schema} (N : Normalizr Schema) (c : class_id)
  (data : value) : result NormalizedData :=
  let schema := schema N c (Lodash.isArray data) in
  let normalizedData := Data_normalize N data schema in
  Lodash.mapValuesR
    (fun records entity =>
       model <-? relation c (VStr entity) ;;
       Ok (attachForeignKeys records model))
    normalizedData.

(** *** Instantiation *)

(** [this.$self()] where a static member of the result is called next
    ([.mutators()], [.fields()], [.resolveRelation(attr)]), [this] being
    an instance of class [c] with the own properties [this].  An own
    property [$self] or [constructor] stands before the inherited one;
    what it holds is a value, which can neither be called nor has the
    static members of a class. *)
Definition instance_self (c : class_id) (this : object) : result class_id :=
  match lookup "$self" this with
  | Some _ => Throw TypeError
  | None =>
      match lookup "constructor" this with
      | Some _ => Throw TypeError
      | None => Ok c
      end
  end.

(** [this.$resolveRelation(attr)] *)
Definition instance_resolveRelation (c : class_id) (this : object)
  (attr : Attrs) : result class_id :=
  match lookup "$resolveRelation" this with
  | Some _ => Throw TypeError
  | None => self <-? instance_self c this ;; resolveRelation self attr
  end.

(** The descriptor object under [key] as it is now: a retained one has
    the [value] last written to it. *)
Definition deref (c : class_id) (key : string) (field : Attrs) : M Attrs :=
  fun st =>
    match lookup key (retained (classes c)) with
    | Some l =>
        match store_get st l with
        | Some v => Ok (Attributes.set_value field v, st)
        | None => Ok (field, st)
        end
    | None => Ok (field, st)
    end.

(** What a caller of [fields()] on class [c] reads in the descriptors it
    is handed. *)
Definition call_fields (c : class_id) (st : store) : Fields :=
  Lodash.mapValues
    (fun field key =>
       match deref c key field st with
       | Ok (field', _) => field'
       | _ => field
       end)
    (fields (classes c)).

(** [newFields[key].value = value]: a retained descriptor is written in
    the store, one built by this call in the map that holds it. *)
Definition assign_value (c : class_id) (newFields : Fields) (key : string)
  (value : value) : M Fields :=
  fun st =>
    match lookup key (retained (classes c)) with
    | Some l => Ok (newFields, store_set st l value)
    | None =>
        match lookup key newFields with
        | Some attr =>
            Ok (set newFields key (Attributes.set_value attr value), st)
        | None => Throw TypeError
        end
    end.

(** [$mergeFields (data)] on an instance of class [c]. *)
Definition mergeFields (c : class_id) (data : value) : M Fields :=
  if negb (truthy data) then ret (fields (classes c))
  else
    let newFields := fields (classes c) in
    let fieldKeys := keys newFields in
    Lodash.forEachM
      (fun newFields value key =>
         if negb (Lodash.includes fieldKeys key) then ret newFields
         else assign_value c newFields key value)
      (Lodash.entries data) newFields.

(** The callback of the [_.forEach] of [$initialize]; [this] is the
    instance under construction and [new] is [new model(...)]. *)
Definition initialize_field (new : class_id -> value -> M value)
  (c : class_id) (this : object) (field : Attrs) (key : string) : M object :=
  field <- deref c key field ;;
  let value := Attributes.value field in
  if is_null value then ret (set this key VNull)
  else
    match field with
    | Attr _ mutator =>
        mutator <- lift
          match mutator with
          | Some f => Ok (Some (Own f))
          | None =>
              self <-? instance_self c this ;;
              Ok (mutators_get (mutators (classes self)) key)
          end ;;
        mutated <- lift
          match mutator with
          | Some f => call f value
          | None => Ok value
          end ;;
        ret (set this key mutated)
    | _ =>
        if Lodash.isNumber value then ret (set this key VNull)
        else
          first <- lift (index0 value) ;;
          if Lodash.isNumber first then ret (set this key VNull)
          else
            match Attributes.type field with
            | THasOne | TBelongsTo =>
                model <- lift (instance_resolveRelation c this field) ;;
                if truthy value then
                  inst <- new model value ;; ret (set this key inst)
                else ret (set this key VNull)
            | THasMany | THasManyBy =>
                model <- lift (instance_resolveRelation c this field) ;;
                if truthy value then
                  match value with
                  | VArr l =>
                      insts <- mapM (new model) l ;;
                      ret (set this key (VArr insts))
                  | _ => throw TypeError
                  end
                else ret (set this key VNull)
            | TAttr => ret this
            end
    end.

(** [$initialize (data)] on a new instance of class [c]. *)
Definition initialize (new : class_id -> value -> M value) (c : class_id)
  (data : value) : M object :=
  fields <- mergeFields c data ;;
  Lodash.forEachM (initialize_field new c) fields [].

(** [new model(data)] for the class [c]; a call without argument passes
    [undefined].  Every nested [new] uses one unit of fuel. *)
Fixpoint instantiate (fuel : nat) (c : class_id) (data : value) : M value :=
  match fuel with
  | O => fun _ => OutOfFuel
  | S n => this <- initialize (instantiate n) c data ;; ret (VInst c this)
  end.

(** *** Serialization *)

(** [this.$toJson()].  Calling [$toJson] on a value that is no model
    instance, or on an instance that has a property of this name, is a
    [TypeError].  [this[key]] is looked up in place, so that the
    recursion is on the instance itself; it is the own property [key],
    which every declared field is on an instance that [new] returned.
    (Without the own property an instance answers with what it inherits
    under a name of [Model_prototype] or [Object_prototype]: a function,
    which is no [value].) *)
Fixpoint toJson (this : value) : result value :=
  match this with
  | VInst c props =>
      match lookup "$toJson" props with
      | Some _ => Throw TypeError
      | None =>
      self <-? instance_self c props ;;
      json <-? Lodash.mapValuesR
        (fun attr key =>
           (fix this_key (ps : object) : result value :=
              match ps with
              | [] => Ok VUndef
              | (k, p) :: ps' =>
                  if String.eqb key k then
                    if negb (truthy p) then Ok p
                    else
                      match Attributes.type attr with
                      | THasOne | TBelongsTo => toJson p
                      | THasMany =>
                          match p with
                          | VArr l => l' <-? rmap toJson l ;; Ok (VArr l')
                          | _ => Throw TypeError
                          end
                      | _ => Ok p
                      end
                  else this_key ps'
              end) props)
        (fields (classes self)) ;;
      Ok (VObj json)
      end
  | _ => Throw TypeError
  end.

End Model.

(** ** Programs used in the examples *)

(** A normalization primitive with a fixed answer: what [Data.normalize]
    returns on the input at hand. *)
Definition answering (answer : NormalizedData) : Normalizr (class_id * bool) :=
  {| Schema_one := fun c => (c, false);
     Schema_many := fun c => (c, true);
     Data_normalize := fun _ _ => answer |}.

Definition num (z : Z) : value := VNum (Num z).

(** The [User] / [Post] entities of the scenarios, on one connection. *)
Module Blog.

Definition User : class_id := 0.
Definition Post : class_id := 1.
Definition Profile : class_id := 2.

Definition User_class : Model :=
  {| connection := "entities"; entity := "User"; primaryKey := "id";
     fields := [("id", Attributes.attr VNull None);
                ("name", Attributes.attr (VStr "") None);
                ("posts", Attributes.hasMany (inl Post) "userId" false);
                ("profile", Attributes.hasOne (inr "Profile") "userId" false)];
     mutators := []; retained := [] |}.

Definition Post_class : Model :=
  {| connection := "entities"; entity := "Post"; primaryKey := "id";
     fields := [("id", Attributes.attr VNull None);
                ("title", Attributes.attr (VStr "") None);
                ("author", Attributes.belongsTo (inl User) "userId" false)];
     mutators := []; retained := [] |}.

Definition Profile_class : Model :=
  {| connection := "entities"; entity := "Profile"; primaryKey := "id";
     fields := [("id", Attributes.attr VNull None);
                ("bio", Attributes.attr (VStr "") None)];
     mutators := []; retained := [] |}.

Definition classes (c : class_id) : Model :=
  match c with
  | 0 => User_class
  | 1 => Post_class
  | 2 => Profile_class
  | _ => base_Model
  end.

Definition container (conn name : string) : option class_id :=
  if String.eqb conn "entities" then
    if String.eqb name "User" then Some User
    else if String.eqb name "Post" then Some Post
    else if String.eqb name "Profile" then Some Profile
    else None
  else None.

(** [{id: 10, title: 'Hi'}]: a post without author. *)
Definition orphan : object := [("id", num 10); ("title", VStr "Hi")].

(** [{id: 10, title: 'Hi', author: {id: 1, name: 'Ada'}}] and what the
    normalization primitive makes of it. *)
Definition post : object :=
  [("id", num 10); ("title", VStr "Hi");
   ("author", VObj [("id", num 1); ("name", VStr "Ada")])].

Definition post_first_pass : NormalizedData :=
  [("Post", [("10", [("id", num 10); ("title", VStr "Hi");
                     ("author", num 1)])]);
   ("User", [("1", [("id", num 1); ("name", VStr "Ada")])])].

(** [{id: 10, userId: 0, author: 5}]: a normalized post that has a
    foreign key, the id [0]. *)
Definition post_of_user0 : object :=
  [("id", num 10); ("userId", num 0); ("author", num 5)].

End Blog.

(** Two belongs-to fields in a chain: the foreign key of [a] is the field
    [b]. *)
Module Chain.

Definition Link_class : Model :=
  {| connection := "entities"; entity := "Link"; primaryKey := "id";
     fields := [("a", Attributes.belongsTo (inr "Link") "b" false);
                ("b", Attributes.belongsTo (inr "Link") "c" false)];
     mutators := []; retained := [] |}.

Definition classes (c : class_id) : Model := Link_class.

End Chain.

(** A balance whose sign is turned on the way in:
    [amount: this.attr(0, v => -v)]. *)
Module Ledger.

Definition negate : Function :=
  fun v => match v with VNum (Num z) => VNum (Num (- z)) | _ => v end.

Definition Entry_class : Model :=
  {| connection := "entities"; entity := "Entry"; primaryKey := "id";
     fields := [("amount", Attributes.attr (num 0) (Some negate))];
     mutators := []; retained := [] |}.

Definition classes (c : class_id) : Model := Entry_class.

Definition container (conn name : string) : option class_id := None.

End Ledger.

(** An entity whose [fields()] returns one object kept in a constant:
    [const FIELDS = { name: Model.attr('') }; ... fields () { return FIELDS }]. *)
Module Cached.

Definition Tag_class : Model :=
  {| connection := "entities"; entity := "Tag"; primaryKey := "id";
     fields := [("name", Attributes.attr (VStr "") None)];
     mutators := []; retained := [("name", 0)] |}.

Definition classes (c : class_id) : Model := Tag_class.

Definition container (conn name : string) : option class_id := None.

End Cached.

(** An entity with an attribute named like a member of
    [Object.prototype]: [fields () { return { toString: this.attr('x') } }]. *)
Module Named.

Definition Named_class : Model :=
  {| connection := "entities"; entity := "Named"; primaryKey := "id";
     fields := [("toString", Attributes.attr (VStr "x") None)];
     mutators := []; retained := [] |}.

Definition classes (c : class_id) : Model := Named_class.

Definition container (conn name : string) : option class_id := None.

End Named.

(** An entity with a field in the place of a method:
    [fields () { return { constructor: this.attr(null), name: this.attr('') } }]. *)
Module Shadow.

Definition Shadow_class : Model :=
  {| connection := "entities"; entity := "Shadow"; primaryKey := "id";
     fields := [("constructor", Attributes.attr VNull None);
                ("name", Attributes.attr (VStr "") None)];
     mutators := []; retained := [] |}.

Definition classes (c : class_id) : Model := Shadow_class.

Definition container (conn name : string) : option class_id := None.

End Shadow.

(** Normalized posts: one that names its author under [author] only, one
    that also has a [userId]. *)
Definition post_by_author : object :=
  [("id", num 10); ("title", VStr "Hi"); ("author", num 1)].

Definition post_with_userId : object :=
  [("id", num 10); ("userId", num 7); ("author", num 5)].

(** A polymorphic relation declared with target [User] whose value
    carries the discriminator ['Post']. *)
Definition commentable : Attrs :=
  HasOne (inl Blog.User) "commentable_id"
    (VObj [("id", num 3); ("type", VStr "Post")]) true.

(** [{profile: 5}], [{amount: 1}], [{name: 'Ada', nickname: 'al'}] and
    [{name: 'Ada'}] as payloads. *)
Definition user_with_profile_id : value := VObj [("profile", num 5)].

Definition credit_of_1 : value := VObj [("amount", num 1)].

Definition ada_with_nickname : value :=
  VObj [("name", VStr "Ada"); ("nickname", VStr "al")].

Definition ada : value := VObj [("name", VStr "Ada")].

(** [{id: 1, name: 'Ada', posts: [{id: 10, title: 'Hi'}]}] and the
    instance [new User(...)] makes of it. *)
Definition ada_with_post : value :=
  VObj [("id", num 1); ("name", VStr "Ada");
        ("posts", VArr [VObj [("id", num 10); ("title", VStr "Hi")]])].

Definition ada_instance : value :=
  VInst Blog.User
    [("id", num 1); ("name", VStr "Ada");
     ("posts", VArr [VInst Blog.Post
                       [("id", num 10); ("title", VStr "Hi");
                        ("author", VNull)]]);
     ("profile", VNull)].

(** ** Vocabulary of the statements *)

(** The foreign key that [attachForeignKeys] looks at for the record field
    [field]: that of a belongs-to descriptor of this name. *)
Definition belongsTo_key (fields : Fields) (field : string) : option string :=
  match lookup field fields with
  | Some attr =>
      match Attributes.type attr with
      | TBelongsTo => Some (foreignKey attr)
      | _ => None
      end
  | None => None
  end.

(** The record entries whose field is a belongs-to relation with foreign
    key [fk], respectively any belongs-to relation. *)
Definition feeds (fields : Fields) (fk : string) (kv : string * value) : bool :=
  match belongsTo_key fields (fst kv) with
  | Some key => String.eqb key fk
  | None => false
  end.

Definition is_belongsTo (fields : Fields) (kv : string * value) : bool :=
  match belongsTo_key fields (fst kv) with
  | Some _ => true
  | None => false
  end.

(** The value a slot ends with when the candidates [ws] are offered in
    turn and each is taken only while the slot is falsy. *)
Definition settle (v0 : value) (ws : list value) : value :=
  fold_left (fun cur w => if truthy cur then cur else w) ws v0.

(** No foreign key of a belongs-to field is itself the name of a
    belongs-to field. *)
Definition unchained (fields : Fields) : Prop :=
  forall field key,
    belongsTo_key fields field = Some key -> belongsTo_key fields key = None.

(** One walk of [attachForeignKeys] over the entries [es], assigning to
    [newRecord]. *)
Definition attach_pass (fields : Fields) (es newRecord : object) : object :=
  Lodash.forEach (attachForeignKey fields) es newRecord.

(** [unchained], decided on the declared fields. *)
Definition unchainedb (fields : Fields) : bool :=
  forallb
    (fun kv =>
       match belongsTo_key fields (fst kv) with
       | Some key =>
           match belongsTo_key fields key with
           | Some _ => false
           | None => true
           end
       | None => true
       end)
    fields.

(** The descriptor object under [key] of class [c] as it is in the store
    [st]: what [deref] hands back. *)
Definition current (classes : class_id -> Model) (c : class_id)
  (key : string) (field : Attrs) (st : store) : Attrs :=
  match lookup key (retained (classes c)) with
  | Some l =>
      match store_get st l with
      | Some v => Attributes.set_value field v
      | None => field
      end
  | None => field
  end.

(** The mutator of the attribute [key] of class [c]: the descriptor's own
    if it has one, else the one that [mutators()] registers under [key]. *)
Definition mutator_for (classes : class_id -> Model) (c : class_id)
  (key : string) (own : option Function) : option Function :=
  match own with
  | Some f => Some f
  | None => lookup key (mutators (classes c))
  end.

Definition mutate (mutator : option Function) (v : value) : value :=
  match mutator with
  | Some f => f v
  | None => v
  end.

(** What [$initialize] makes of the value [v] of an attribute whose
    descriptor has the mutator [own], on the instance with the
    properties [this]:
    [(own || this.$self().mutators()[key]) ? mutator(v) : v]. *)
Definition mutated (classes : class_id -> Model) (c : class_id)
  (this : object) (key : string) (own : option Function) (v : value)
  : result value :=
  mutator <-?
    match own with
    | Some f => Ok (Some (Own f))
    | None =>
        self <-? instance_self c this ;;
        Ok (mutators_get (mutators (classes self)) key)
    end ;;
  match mutator with
  | Some f => call f v
  | None => Ok v
  end.

(** What serialization emits for the declared field [key] with descriptor
    [attr] of an instance with properties [props]: a falsy property
    verbatim, a has-one or belongs-to property serialized, a has-many
    property serialized element by element, any other property as it is. *)
Definition emit (classes : class_id -> Model) (props : object) (attr : Attrs)
  (key : string) : result value :=
  let p := get props key in
  if negb (truthy p) then Ok p
  else
    match Attributes.type attr with
    | THasOne | TBelongsTo => toJson classes p
    | THasMany =>
        match p with
        | VArr l => l' <-? rmap (toJson classes) l ;; Ok (VArr l')
        | _ => Throw TypeError
        end
    | TAttr | THasManyBy => Ok p
    end.

(** Every [fields()] of the program builds its descriptors anew on each
    call: no class retains a descriptor object. *)
Definition builds_afresh (classes : class_id -> Model) : Prop :=
  forall c, retained (classes c) = [].

(** The payload keys that name a declared field of class [c]. *)
Definition declared (classes : class_id -> Model) (c : class_id)
  (kv : string * value) : bool :=
  Lodash.includes (keys (fields (classes c))) (fst kv).

(** The class a relation descriptor names without looking at its value:
    what [resolveRelation] returns when the descriptor is not polymorphic. *)
Definition target_of (classes : class_id -> Model)
  (container : string -> string -> option class_id) (c : class_id)
  (field : Attrs) : result class_id :=
  match model_of field with
  | Some (inr name) => relation classes container c (VStr name)
  | Some (inl model) => Ok model
  | None => Throw TypeError
  end.

Definition own_mutator (field : Attrs) : option Function :=
  match field with
  | Attr _ mutator => mutator
  | _ => None
  end.

(** What the property of the declared field [key] of an instance of [c]
    may hold, [inst_of m] saying what an instance of class [m] is: [null];
    for an attribute a value its mutator leaves alone; for has-one and
    belongs-to an instance of the target; for has-many and has-many-by an
    array of such instances. *)
Definition holds (classes : class_id -> Model)
  (container : string -> string -> option class_id)
  (inst_of : class_id -> value -> Prop)
  (c : class_id) (key : string) (field : Attrs) (p : value) : Prop :=
  p = VNull \/
  match Attributes.type field with
  | TAttr => mutate (mutator_for classes c key (own_mutator field)) p = p
  | THasOne | TBelongsTo =>
      exists m, target_of classes container c field = Ok m /\ inst_of m p
  | THasMany | THasManyBy =>
      exists m l, target_of classes container c field = Ok m /\
                  p = VArr l /\ Forall (inst_of m) l
  end.

(** An instance of class [c] with at most [n] levels of nested instances. *)
Fixpoint instance_of (classes : class_id -> Model)
  (container : string -> string -> option class_id)
  (n : nat) (c : class_id) (v : value) {struct n} : Prop :=
  match n with
  | O => False
  | S n' =>
      match v with
      | VInst c' props =>
          c' = c /\ keys props = keys (fields (classes c)) /\
          forall key field,
            In (key, field) (fields (classes c)) ->
            holds classes container (instance_of classes container n')
              c key field (get props key)
      | _ => False
      end
  end.

(** The names that an instance answers without having a property of the
    name. *)
Definition inherited_names : list string := Model_prototype ++ Object_prototype.

(** No declared field of class [c] has such a name. *)
Definition plain_names (classes : class_id -> Model) (c : class_id) : Prop :=
  forall key,
    In key (keys (fields (classes c))) -> ~ In key inherited_names.

Definition plain_namesb (fields : Fields) : bool :=
  forallb (fun key => negb (Lodash.includes inherited_names key)) (keys fields).

(** An instance under construction that has no property in the place of
    a method that [$initialize] calls. *)
Definition intact (this : object) : Prop :=
  lookup "$self" this = None /\ lookup "constructor" this = None /\
  lookup "$resolveRelation" this = None.

(** The programs for which serialization can be read back: descriptors
    are built afresh by every [fields()], no field is declared twice,
    under the name ["0"] or under a name that instances inherit, no
    relation is polymorphic, and mutating twice is mutating once. *)
Record readable (classes : class_id -> Model) : Prop := {
  readable_afresh : builds_afresh classes;
  readable_keys : forall c, NoDup (keys (fields (classes c)));
  readable_index : forall c, lookup "0" (fields (classes c)) = None;
  readable_names : forall c, plain_names classes c;
  readable_static :
    forall c key field,
      In (key, field) (fields (classes c)) -> polymorphic field = false;
  readable_mutators :
    forall c key field v,
      In (key, field) (fields (classes c)) ->
      mutate (mutator_for classes c key (own_mutator field))
        (mutate (mutator_for classes c key (own_mutator field)) v) =
      mutate (mutator_for classes c key (own_mutator field)) v
}.

(** The callback of the [_.forEach] of [$mergeFields]. *)
Definition merge_callback (classes : class_id -> Model) (c : class_id)
  (fieldKeys : list string) (newFields : Fields) (value : value)
  (key : string) : M Fields :=
  if negb (Lodash.includes fieldKeys key) then ret newFields
  else assign_value classes c newFields key value.

(** ** Further vocabulary *)

(** The class that made an instance. *)
Definition self (this : value) : option class_id :=
  match this with
  | VInst c _ => Some c
  | _ => None
  end.

(** A key that an object lists among the first, in numeric order,
    wherever it was added: a name made of digits. *)
Definition is_digit (a : ascii) : bool :=
  (48 <=? nat_of_ascii a)%nat && (nat_of_ascii a <=? 57)%nat.

Fixpoint all_digits (s : string) : bool :=
  match s with
  | EmptyString => true
  | String a s' => is_digit a && all_digits s'
  end.

Definition index_like (k : string) : bool :=
  negb (String.eqb k "") && all_digits k.

(** The first truthy value among [v0] and the candidates [ws]; when there
    is none, the last candidate ([v0] itself without candidates). *)
Definition first_truthy (v0 : value) (ws : list value) : value :=
  match find truthy (v0 :: ws) with
  | Some v => v
  | None => last ws v0
  end.

(** A key that [attachForeignKeys] may write for this record: the foreign
    key of a belongs-to field the record carries. *)
Definition fed (fields : Fields) (record : object) (k : string) : Prop :=
  exists field v, In (field, v) record /\ belongsTo_key fields field = Some k.

(** The declared descriptors with the payload's own properties [o] as
    values where the payload has one. *)
Definition merged_with (fields : Fields) (o : object) : Fields :=
  map (fun kd =>
         (fst kd,
          match lookup (fst kd) o with
          | Some v => Attributes.set_value (snd kd) v
          | None => snd kd
          end))
    fields.

(** What [$initialize] assigns for a descriptor whose value is [null] or
    that is an attribute: [null], respectively the mutated value. *)
Definition plain_property (classes : class_id -> Model) (c : class_id)
  (key : string) (field : Attrs) : value :=
  if is_null (Attributes.value field) then VNull
  else mutate (mutator_for classes c key (own_mutator field))
         (Attributes.value field).

(** Nesting depth of a value. *)
Fixpoint depth (v : value) : nat :=
  match v with
  | VArr l => S (list_max (map depth l))
  | VObj o | VInst _ o => S (list_max (map (fun kv => depth (snd kv)) o))
  | _ => 0
  end.

(** The members of an instance that [$toJson] uses, and the names that
    no class may give a field for its instances to be serialized. *)
Definition toJson_members : list string := ["$toJson"; "$self"; "constructor"].

Definition serializable_names (classes : class_id -> Model) : Prop :=
  forall c k,
    In k ("__proto__" :: toJson_members) ->
    ~ In k (keys (fields (classes c))).

(** A value that [$toJson] can walk with [n] levels of recursion: an
    instance that has the members [$toJson] uses, whose truthy has-one
    and belongs-to properties are such values and whose truthy has-many
    properties are arrays of them. *)
Fixpoint serializable (classes : class_id -> Model) (n : nat) (v : value)
  {struct n} : Prop :=
  match n with
  | O => False
  | S n' =>
      match v with
      | VInst c props =>
          (forall k, In k toJson_members -> lookup k props = None) /\
          forall key field,
            In (key, field) (fields (classes c)) ->
            truthy (get props key) = false \/
            match Attributes.type field with
            | THasOne | TBelongsTo => serializable classes n' (get props key)
            | THasMany =>
                exists l, get props key = VArr l /\
                          Forall (serializable classes n') l
            | TAttr | THasManyBy => True
            end
      | _ => False
      end
  end.

(** A descriptor that differs from the declared one in [value] at most,
    under the same name. *)
Definition same_but_value (kd kf : string * Attrs) : Prop :=
  fst kf = fst kd /\ exists w, snd kf = Attributes.set_value (snd kd) w.

(** The relations of class [c] are declared through the factories
    ([hasOne], [belongsTo], [hasMany], [hasManyBy]): their default value
    is [null]. *)
Definition factory_relations (classes : class_id -> Model) (c : class_id)
  : Prop :=
  forall key field,
    In (key, field) (fields (classes c)) ->
    Attributes.isRelation field = true -> Attributes.value field = VNull.

(** Payloads of the examples: [[1, 2]], [{posts: {id: 10}}] and
    [{id: 1, profile: undefined}]. *)
Definition two_numbers : value := VArr [num 1; num 2].

Definition user_with_single_post : value :=
  VObj [("posts", VObj [("id", num 10)])].

Definition user_with_undefined_profile : value :=
  VObj [("id", num 1); ("profile", VUndef)].

(** A relation descriptor whose value, if not [null], is nested less
    than [n] deep. *)
Definition shallow_relation (n : nat) (field : Attrs) : Prop :=
  Attributes.isRelation field = true ->
  Attributes.value field = VNull \/ depth (Attributes.value field) < n.

(** A class with a hand-written has-one relation to itself whose default
    is an empty object: [parent: { type: 'HasOne', model: Node, value: {},
    ... }]. *)
Module Loop.

Definition Node_class : Model :=
  {| connection := "entities"; entity := "Node"; primaryKey := "id";
     fields := [("parent", HasOne (inl 0) "parentId" (VObj []) false)];
     mutators := []; retained := [] |}.

Definition classes (c : class_id) : Model := Node_class.

Definition container (conn name : string) : option class_id := None.

End Loop.

(** The payload's own properties over the declared defaults: under each
    declared name the payload's value when it has one, else the default. *)
Definition payload_over_defaults (fields : Fields) (o : object) : object :=
  map (fun kd =>
         (fst kd,
          match lookup (fst kd) o with
          | Some v => v
          | None => Attributes.value (snd kd)
          end))
    fields.

(** [{id: 7, bio: null, theme: 'dark'}] *)
Definition profile_payload : value :=
  VObj [("id", num 7); ("bio", VNull); ("theme", VStr "dark")].

(** A model instance; an instance of class [m]. *)
Definition is_instance (v : value) : Prop :=
  match v with
  | VInst _ _ => True
  | _ => False
  end.

Definition is_instance_of (m : class_id) (v : value) : Prop :=
  self v = Some m.

(** What a relation property of a new instance may be: [null], one
    instance for has-one and belongs-to, an array of instances for
    has-many and has-many-by. *)
Definition relation_shape (type : AttrType) (p : value) : Prop :=
  p = VNull \/
  match type with
  | THasOne | TBelongsTo => is_instance p
  | THasMany | THasManyBy => exists l, p = VArr l /\ Forall is_instance l
  | TAttr => False
  end.

(** Embedded data: a merged relation value that [$initialize] hands to
    [new]: truthy, no number and not led by a number. *)
Definition embedded (v : value) : Prop :=
  truthy v = true /\ Lodash.isNumber v = false /\
  forall first, index0 v = Ok first -> Lodash.isNumber first = false.

(** * Properties *)

(** ** Objects *)

Lemma lookup_set_same {A} (o : list (string * A)) k v :
  lookup k (set o k v) = Some v.
Proof.
  induction o as [|[k' a] o IH]; simpl.
  - now rewrite String.eqb_refl.
  - destruct (String.eqb k k') eqn:E; simpl; rewrite E; auto.
Qed.

Lemma lookup_set_other {A} (o : list (string * A)) k k' v :
  k <> k' -> lookup k' (set o k v) = lookup k' o.
Proof.
  intros Hne. induction o as [|[k0 a] o IH]; simpl.
  - destruct (String.eqb k' k) eqn:E; auto.
    apply String.eqb_eq in E. congruence.
  - destruct (String.eqb k k0) eqn:E; simpl.
    + apply String.eqb_eq in E. subst k0.
      destruct (String.eqb k' k) eqn:E'; auto.
      apply String.eqb_eq in E'. congruence.
    + now rewrite IH.
Qed.

Lemma get_set_same (o : object) k v : get (set o k v) k = v.
Proof. unfold get. now rewrite lookup_set_same. Qed.

Lemma get_set_other (o : object) k k' v :
  k <> k' -> get (set o k v) k' = get o k'.
Proof. intros. unfold get. now rewrite lookup_set_other. Qed.

Lemma lookup_In_keys {A} (o : list (string * A)) k :
  In k (keys o) <-> lookup k o <> None.
Proof.
  induction o as [|[k' a] o IH]; simpl.
  - split; [tauto | congruence].
  - destruct (String.eqb k k') eqn:E.
    + apply String.eqb_eq in E. subst. split; [congruence | auto].
    + apply String.eqb_neq in E. rewrite <- IH.
      split; [intros [H|H]; [congruence | auto] | auto].
Qed.

Lemma lookup_Some_In {A} (o : list (string * A)) k a :
  lookup k o = Some a -> In (k, a) o.
Proof.
  induction o as [|[k' a'] o IH]; simpl; [congruence|].
  destruct (String.eqb k k') eqn:E.
  - apply String.eqb_eq in E. intros [= ->]. subst. now left.
  - auto.
Qed.

Lemma In_lookup_NoDup {A} (o : list (string * A)) k a :
  NoDup (keys o) -> In (k, a) o -> lookup k o = Some a.
Proof.
  induction o as [|[k' a'] o IH]; simpl; [tauto|].
  intros Hnd [H|H]; inversion Hnd; subst.
  - injection H as -> ->. now rewrite String.eqb_refl.
  - destruct (String.eqb k k') eqn:E; auto.
    apply String.eqb_eq in E. subst k'.
    exfalso. apply H2. change k with (fst (k, a)). now apply in_map.
Qed.

Lemma get_truthy_In_keys (o : object) k :
  truthy (get o k) = true -> In k (keys o).
Proof.
  intros H. apply lookup_In_keys. unfold get in H.
  destruct (lookup k o); [congruence | discriminate].
Qed.

Lemma keys_set_present {A} (o : list (string * A)) k v :
  In k (keys o) -> keys (set o k v) = keys o.
Proof.
  induction o as [|[k' a] o IH]; simpl; [tauto|].
  intros H. destruct (String.eqb k k') eqn:E; simpl; auto.
  apply String.eqb_neq in E. f_equal. apply IH.
  destruct H; [congruence | auto].
Qed.

Lemma keys_set_absent {A} (o : list (string * A)) k v :
  ~ In k (keys o) -> keys (set o k v) = keys o ++ [k].
Proof.
  induction o as [|[k' a] o IH]; simpl; auto.
  intros H. destruct (String.eqb k k') eqn:E; simpl.
  - apply String.eqb_eq in E. subst. tauto.
  - f_equal. apply IH. tauto.
Qed.

Lemma In_keys_set {A} (o : list (string * A)) k v k' :
  In k' (keys (set o k v)) <-> k' = k \/ In k' (keys o).
Proof.
  induction o as [|[k0 a] o IH]; simpl.
  - intuition.
  - destruct (String.eqb k k0) eqn:E; simpl.
    + apply String.eqb_eq in E. subst. intuition.
    + rewrite IH. intuition.
Qed.

Lemma NoDup_keys_set {A} (o : list (string * A)) k v :
  NoDup (keys o) -> NoDup (keys (set o k v)).
Proof.
  intros H. destruct (in_dec string_dec k (keys o)) as [Hin|Hin].
  - now rewrite keys_set_present.
  - rewrite keys_set_absent by assumption.
    apply NoDup_app; [assumption | repeat constructor; simpl; tauto |].
    intros x Hx [<-|[]]. contradiction.
Qed.

(** Two objects with the same keys in the same order, none twice, and the
    same value under each key are the same object. *)
Lemma object_ext (o o' : object) :
  NoDup (keys o) -> keys o = keys o' ->
  (forall k, In k (keys o) -> get o k = get o' k) -> o = o'.
Proof.
  revert o'. induction o as [|[k v] o IH]; intros [|[k' v'] o'] Hnd Hk Hg;
    simpl in *; try discriminate; auto.
  injection Hk as <- Hk. inversion Hnd; subst.
  f_equal.
  - f_equal. specialize (Hg k (or_introl eq_refl)).
    unfold get in Hg. simpl in Hg. now rewrite String.eqb_refl in Hg.
  - apply IH; auto. intros k0 Hin.
    specialize (Hg k0 (or_intror Hin)). unfold get in *. simpl in Hg.
    destruct (String.eqb k0 k) eqn:E; auto.
    apply String.eqb_eq in E. subst. contradiction.
Qed.

Lemma rbind_Ok {A B} (r : result A) (k : A -> result B) b :
  rbind r k = Ok b -> exists a, r = Ok a /\ k a = Ok b.
Proof. destruct r; simpl; try discriminate. eauto. Qed.

Lemma bind_Ok {A B} (m : M A) (k : A -> M B) st b st' :
  bind m k st = Ok (b, st') ->
  exists a st1, m st = Ok (a, st1) /\ k a st1 = Ok (b, st').
Proof.
  unfold bind. destruct (m st) as [[a st1]| |]; try discriminate. eauto.
Qed.

Lemma lift_Ok {A} (r : result A) st a st' :
  lift r st = Ok (a, st') -> r = Ok a /\ st' = st.
Proof.
  unfold lift. destruct r; simpl; try discriminate.
  intros [= -> ->]. auto.
Qed.

(** ** Foreign-key repair: one record *)

Lemma settle_truthy v ws : truthy v = true -> settle v ws = v.
Proof.
  revert v. induction ws as [|w ws IH]; intros v Hv; simpl; auto.
  rewrite Hv. now apply IH.
Qed.

Lemma settle_idempotent v ws : settle (settle v ws) ws = settle v ws.
Proof.
  revert v. induction ws as [|w ws IH]; intros v; simpl; auto.
  set (v1 := if truthy v then v else w).
  destruct (truthy (settle v1 ws)) eqn:E; [apply IH|].
  assert (Hv1 : truthy v1 = false).
  { destruct (truthy v1) eqn:E1; auto.
    rewrite (settle_truthy _ ws E1) in E. congruence. }
  subst v1. destruct (truthy v) eqn:Ev; [congruence | reflexivity].
Qed.

Lemma settle_defined v ws :
  v <> VUndef -> Forall (fun w => w <> VUndef) ws -> settle v ws <> VUndef.
Proof.
  revert v. induction ws as [|w ws IH]; intros v Hv Hws; simpl; auto.
  inversion Hws; subst. apply IH; auto. now destruct (truthy v).
Qed.

Lemma settle_offered v ws :
  ws <> [] -> Forall (fun w => w <> VUndef) ws -> settle v ws <> VUndef.
Proof.
  destruct ws as [|w ws]; [congruence|]. intros _ Hws. simpl.
  inversion Hws; subst. apply settle_defined; auto.
  destruct (truthy v) eqn:E; auto. intros ->. discriminate.
Qed.

Section Attach.

Variable fields : Fields.

Lemma attachForeignKey_eq newRecord v field :
  attachForeignKey fields newRecord v field =
  match belongsTo_key fields field with
  | Some key =>
      if truthy (get newRecord key) then newRecord else set newRecord key v
  | None => newRecord
  end.
Proof.
  unfold attachForeignKey, belongsTo_key.
  destruct (lookup field fields) as [a|]; auto.
  now destruct (Attributes.type a).
Qed.

Lemma pass_cons field v es newRecord :
  attach_pass fields ((field, v) :: es) newRecord =
  attach_pass fields es (attachForeignKey fields newRecord v field).
Proof. reflexivity. Qed.

(** The value under [k] after a attach_pass fields is settled from the value before
    and the entries that feed [k], in record order. *)
Lemma pass_get es newRecord k :
  get (attach_pass fields es newRecord) k =
  settle (get newRecord k) (map snd (filter (feeds fields k) es)).
Proof.
  revert newRecord. induction es as [|[f v] es IH]; intros nr; auto.
  rewrite pass_cons, IH, attachForeignKey_eq. simpl filter.
  unfold feeds at 2. simpl fst.
  destruct (belongsTo_key fields f) as [key|]; auto.
  destruct (String.eqb key k) eqn:E.
  - apply String.eqb_eq in E. subst key. simpl.
    destruct (truthy (get nr k)); auto. now rewrite get_set_same.
  - apply String.eqb_neq in E.
    destruct (truthy (get nr key)); auto. now rewrite get_set_other.
Qed.

Lemma pass_keeps_truthy es newRecord k :
  truthy (get newRecord k) = true ->
  get (attach_pass fields es newRecord) k = get newRecord k.
Proof. intros H. rewrite pass_get. now apply settle_truthy. Qed.

Lemma pass_only_belongsTo es newRecord :
  attach_pass fields es newRecord =
  attach_pass fields (filter (is_belongsTo fields) es) newRecord.
Proof.
  revert newRecord. induction es as [|[f v] es IH]; intros nr; auto.
  simpl filter.
  replace (is_belongsTo fields (f, v))
    with (match belongsTo_key fields f with Some _ => true | None => false end)
    by reflexivity.
  rewrite pass_cons, attachForeignKey_eq.
  destruct (belongsTo_key fields f) as [key|] eqn:E; auto.
  rewrite pass_cons, attachForeignKey_eq, E. apply IH.
Qed.

Lemma pass_keys_mono es newRecord k :
  In k (keys newRecord) -> In k (keys (attach_pass fields es newRecord)).
Proof.
  revert newRecord. induction es as [|[f v] es IH]; intros nr H; auto.
  rewrite pass_cons. apply IH. rewrite attachForeignKey_eq.
  destruct (belongsTo_key fields f) as [key|]; auto.
  destruct (truthy (get nr key)); auto.
  apply In_keys_set. auto.
Qed.

Lemma pass_keys_fed es newRecord f v key :
  In (f, v) es -> belongsTo_key fields f = Some key ->
  In key (keys (attach_pass fields es newRecord)).
Proof.
  revert newRecord. induction es as [|[f' v'] es IH]; intros nr Hin Hk.
  - destruct Hin.
  - rewrite pass_cons. destruct Hin as [[= -> ->]|Hin]; [|eauto].
    apply pass_keys_mono. rewrite attachForeignKey_eq, Hk.
    destruct (truthy (get nr key)) eqn:E.
    + now apply get_truthy_In_keys.
    + apply In_keys_set. auto.
Qed.

Lemma pass_keys_fixed es newRecord :
  (forall f v key, In (f, v) es -> belongsTo_key fields f = Some key ->
                   In key (keys newRecord)) ->
  keys (attach_pass fields es newRecord) = keys newRecord.
Proof.
  revert newRecord. induction es as [|[f v] es IH]; intros nr H; auto.
  rewrite pass_cons.
  assert (Hstep : keys (attachForeignKey fields nr v f) = keys nr).
  { rewrite attachForeignKey_eq.
    destruct (belongsTo_key fields f) as [key|] eqn:E; auto.
    destruct (truthy (get nr key)); auto.
    apply keys_set_present. eapply H; [now left | eassumption]. }
  rewrite IH; auto.
  intros f' v' key Hin Hk. rewrite Hstep. eapply H; [right|]; eassumption.
Qed.

Lemma pass_NoDup es newRecord :
  NoDup (keys newRecord) -> NoDup (keys (attach_pass fields es newRecord)).
Proof.
  revert newRecord. induction es as [|[f v] es IH]; intros nr H; auto.
  rewrite pass_cons. apply IH. rewrite attachForeignKey_eq.
  destruct (belongsTo_key fields f); auto.
  destruct (truthy (get nr s)); auto. now apply NoDup_keys_set.
Qed.

Lemma filter_set_unrelated (o : object) k v :
  belongsTo_key fields k = None ->
  filter (is_belongsTo fields) (set o k v) = filter (is_belongsTo fields) o.
Proof.
  intros Hk. induction o as [|[k' v'] o IH]; simpl.
  - unfold is_belongsTo. simpl. now rewrite Hk.
  - destruct (String.eqb k k') eqn:E; simpl.
    + apply String.eqb_eq in E. subst k'.
      unfold is_belongsTo. simpl. now rewrite Hk.
    + now rewrite IH.
Qed.

Lemma pass_belongsTo_entries es newRecord :
  unchained fields ->
  filter (is_belongsTo fields) (attach_pass fields es newRecord) =
  filter (is_belongsTo fields) newRecord.
Proof.
  intros Hun. revert newRecord.
  induction es as [|[f v] es IH]; intros nr; auto.
  rewrite pass_cons, IH, attachForeignKey_eq.
  destruct (belongsTo_key fields f) as [key|] eqn:E; auto.
  destruct (truthy (get nr key)); auto.
  apply filter_set_unrelated. eapply Hun; eassumption.
Qed.

Lemma attachRecord_get record k :
  get (attachRecord fields record) k =
  settle (get record k) (map snd (filter (feeds fields k) record)).
Proof. apply pass_get. Qed.

Lemma attachRecord_idempotent record :
  unchained fields -> NoDup (keys record) ->
  attachRecord fields (attachRecord fields record) =
  attachRecord fields record.
Proof.
  intros Hun Hnd. change (attachRecord fields) with (fun r => attach_pass fields r r).
  cbv beta.
  set (bs := filter (is_belongsTo fields) record).
  assert (H1 : attach_pass fields record record = attach_pass fields bs record)
    by apply pass_only_belongsTo.
  rewrite (pass_only_belongsTo (attach_pass fields record record)).
  rewrite pass_belongsTo_entries by assumption. fold bs.
  rewrite H1.
  assert (Hnd1 : NoDup (keys (attach_pass fields bs record))) by now apply pass_NoDup.
  assert (Hk : keys (attach_pass fields bs (attach_pass fields bs record)) = keys (attach_pass fields bs record)).
  { apply pass_keys_fixed. intros f v key Hin Hkey.
    eapply pass_keys_fed; eassumption. }
  apply object_ext.
  - now apply pass_NoDup.
  - exact Hk.
  - intros k _. rewrite (pass_get bs (attach_pass fields bs record)), pass_get.
    apply settle_idempotent.
Qed.

End Attach.

(** ** Foreign-key repair: record collections *)

Lemma mapValues_lookup {A B} (f : A -> string -> B) (o : list (string * A)) k :
  lookup k (Lodash.mapValues f o) =
  match lookup k o with Some a => Some (f a k) | None => None end.
Proof.
  induction o as [|[k' a] o IH]; simpl; auto.
  destruct (String.eqb k k') eqn:E; auto.
  apply String.eqb_eq in E. now subst.
Qed.

Lemma mapValues_In {A B} (f : A -> string -> B) (o : list (string * A)) k b :
  In (k, b) (Lodash.mapValues f o) <-> exists a, In (k, a) o /\ b = f a k.
Proof.
  unfold Lodash.mapValues. rewrite in_map_iff. split.
  - intros [[k' a] [[= <- <-] Hin]]. eauto.
  - intros [a [Hin ->]]. exists (k, a). auto.
Qed.

Lemma mapValuesR_In {A B} (f : A -> string -> result B) o out k b :
  Lodash.mapValuesR f o = Ok out -> In (k, b) out ->
  exists a, In (k, a) o /\ f a k = Ok b.
Proof.
  unfold Lodash.mapValuesR.
  revert out. induction o as [|[k' a] o IH]; intros out; simpl.
  - intros [= <-] [].
  - intros H. apply rbind_Ok in H as [[k1 b1] [H1 H]].
    apply rbind_Ok in H1 as [b2 [H1 [= <- <-]]].
    apply rbind_Ok in H as [ys [H2 [= <-]]].
    intros [[= -> ->]|Hin]; [eauto|].
    destruct (IH _ H2 Hin) as [a0 [? ?]]. eauto.
Qed.

Lemma unchainedb_sound fields : unchainedb fields = true -> unchained fields.
Proof.
  unfold unchainedb, unchained. rewrite forallb_forall.
  intros H field key Hk.
  assert (Hin : exists a, In (field, a) fields).
  { unfold belongsTo_key in Hk.
    destruct (lookup field fields) as [a|] eqn:E; [|discriminate].
    exists a. now apply lookup_Some_In. }
  destruct Hin as [a Hin]. specialize (H _ Hin). simpl in H.
  rewrite Hk in H. now destruct (belongsTo_key fields key).
Qed.

Lemma attachForeignKeys_lookup classes records model id :
  lookup id (attachForeignKeys classes records model) =
  match lookup id records with
  | Some record => Some (attachRecord (fields (classes model)) record)
  | None => None
  end.
Proof. unfold attachForeignKeys. apply mapValues_lookup. Qed.

(** C8, as amended: a record that already has a truthy value under a key
    [fk] leaves [attachForeignKeys] with the same value under [fk]; a
    foreign key is written only where the value under it is falsy. *)
Theorem attachForeignKeys_keeps_truthy_key classes records model id record fk :
  lookup id records = Some record ->
  truthy (get record fk) = true ->
  exists record',
    lookup id (attachForeignKeys classes records model) = Some record' /\
    get record' fk = get record fk.
Proof.
  intros Hl Ht. rewrite attachForeignKeys_lookup, Hl.
  eexists. split; [reflexivity|].
  now apply pass_keeps_truthy.
Qed.

Lemma attachForeignKeys_keeps_truthy_key_witness :
  exists record',
    lookup "10" (attachForeignKeys Blog.classes
                   [("10", post_with_userId)] Blog.Post) = Some record' /\
    get record' "userId" = get post_with_userId "userId".
Proof.
  apply (attachForeignKeys_keeps_truthy_key Blog.classes
           [("10", post_with_userId)] Blog.Post "10" post_with_userId "userId");
    reflexivity.
Defined.

(** C8 as stated fails: the record [{id: 10, userId: 0, author: 5}]
    contains a value under the foreign key [userId] of the belongs-to
    field [author], and leaves with [userId: 5]. *)
Lemma attachForeignKeys_overwrites_falsy_key :
  belongsTo_key (fields (Blog.classes Blog.Post)) "author" = Some "userId" /\
  lookup "userId" Blog.post_of_user0 = Some (num 0) /\
  attachForeignKeys Blog.classes [("10", Blog.post_of_user0)] Blog.Post =
    [("10", [("id", num 10); ("userId", num 5); ("author", num 5)])] /\
  num 5 <> num 0.
Proof. repeat split. discriminate. Qed.

(** C10, as amended: on a model none of whose belongs-to foreign keys is
    itself the name of a belongs-to field, a second [attachForeignKeys]
    changes nothing (records being objects, no key occurs twice in one). *)
Theorem attachForeignKeys_idempotent classes records model :
  unchained (fields (classes model)) ->
  (forall id record, In (id, record) records -> NoDup (keys record)) ->
  attachForeignKeys classes (attachForeignKeys classes records model) model =
  attachForeignKeys classes records model.
Proof.
  intros Hun Hnd. unfold attachForeignKeys, Lodash.mapValues.
  rewrite map_map. apply map_ext_in. intros [id record] Hin. simpl.
  f_equal. apply attachRecord_idempotent; eauto.
Qed.

Lemma attachForeignKeys_idempotent_witness :
  attachForeignKeys Blog.classes
    (attachForeignKeys Blog.classes [("10", post_by_author)] Blog.Post)
    Blog.Post =
  attachForeignKeys Blog.classes [("10", post_by_author)] Blog.Post.
Proof.
  apply (attachForeignKeys_idempotent Blog.classes
           [("10", post_by_author)] Blog.Post).
  - apply unchainedb_sound. reflexivity.
  - intros id record [[= <- <-]|[]].
    repeat constructor; simpl; intuition discriminate.
Defined.

(** C10 as stated fails: with [a: belongsTo(.., 'b')] and
    [b: belongsTo(.., 'c')] the record [{a: 5}] gets [b] in the first
    application and [c] in the second. *)
Lemma attachForeignKeys_not_idempotent :
  attachForeignKeys Chain.classes [("1", [("a", num 5)])] 0 =
    [("1", [("a", num 5); ("b", num 5)])] /\
  attachForeignKeys Chain.classes
    (attachForeignKeys Chain.classes [("1", [("a", num 5)])] 0) 0 =
    [("1", [("a", num 5); ("b", num 5); ("c", num 5)])] /\
  attachForeignKeys Chain.classes
    (attachForeignKeys Chain.classes [("1", [("a", num 5)])] 0) 0 <>
  attachForeignKeys Chain.classes [("1", [("a", num 5)])] 0.
Proof. repeat split. discriminate. Qed.

(** C1, as amended: every record of a bucket of [normalize]'s output is
    the repaired first-pass record of the bucket's own model, and for
    every foreign key [fk]: if the first-pass record carries a belongs-to
    field with foreign key [fk] and each such field it carries holds a
    value other than [undefined], the record has a value other than
    [undefined] at [fk]; if it carries exactly one such field and no
    truthy value at [fk], the value at [fk] is that field's; if it
    carries no such field, the value at [fk] is as it was. *)
Theorem normalize_attaches_foreign_key
  classes container Schema (N : Normalizr Schema) c data
  out entity records id record :
  normalize classes container N c data = Ok out ->
  In (entity, records) out -> In (id, record) records ->
  exists model records0 record0,
    relation classes container c (VStr entity) = Ok model /\
    In (entity, records0)
       (Data_normalize N data (schema N c (Lodash.isArray data))) /\
    In (id, record0) records0 /\
    record = attachRecord (fields (classes model)) record0 /\
    forall fk,
      let feeding := filter (feeds (fields (classes model)) fk) record0 in
      (feeding <> [] ->
       Forall (fun kv => snd kv <> VUndef) feeding ->
       get record fk <> VUndef) /\
      (forall field v,
         feeding = [(field, v)] -> truthy (get record0 fk) = false ->
         get record fk = v) /\
      (feeding = [] -> get record fk = get record0 fk).
Proof.
  unfold normalize. intros Hn Hb Hr.
  destruct (mapValuesR_In _ _ _ _ _ Hn Hb) as [records0 [Hin0 Hf]].
  apply rbind_Ok in Hf as [model [Hrel [= <-]]].
  unfold attachForeignKeys in Hr. apply mapValues_In in Hr as [record0 [Hr0 ->]].
  exists model, records0, record0. repeat split; auto.
  - intros Hne Hall. rewrite attachRecord_get. apply settle_offered.
    + intros Hnil. apply Hne. now apply map_eq_nil in Hnil.
    + apply Forall_map. exact Hall.
  - intros field v Hfeed Hfalsy. rewrite attachRecord_get, Hfeed. simpl.
    now rewrite Hfalsy.
  - intros Hfeed. now rewrite attachRecord_get, Hfeed.
Qed.

Lemma normalize_attaches_foreign_key_witness :
  exists model records0 record0,
    relation Blog.classes Blog.container Blog.Post (VStr "Post") = Ok model /\
    In ("Post", records0)
       (Data_normalize (answering Blog.post_first_pass) (VObj Blog.post)
          (schema (answering Blog.post_first_pass) Blog.Post
             (Lodash.isArray (VObj Blog.post)))) /\
    In ("10", record0) records0 /\
    [("id", num 10); ("title", VStr "Hi"); ("author", num 1);
     ("userId", num 1)] =
      attachRecord (fields (Blog.classes model)) record0 /\
    forall fk,
      let feeding := filter (feeds (fields (Blog.classes model)) fk) record0 in
      (feeding <> [] ->
       Forall (fun kv => snd kv <> VUndef) feeding ->
       get [("id", num 10); ("title", VStr "Hi"); ("author", num 1);
            ("userId", num 1)] fk <> VUndef) /\
      (forall field v,
         feeding = [(field, v)] -> truthy (get record0 fk) = false ->
         get [("id", num 10); ("title", VStr "Hi"); ("author", num 1);
              ("userId", num 1)] fk = v) /\
      (feeding = [] ->
       get [("id", num 10); ("title", VStr "Hi"); ("author", num 1);
            ("userId", num 1)] fk = get record0 fk).
Proof.
  apply (normalize_attaches_foreign_key Blog.classes Blog.container _
           (answering Blog.post_first_pass) Blog.Post (VObj Blog.post)
           [("Post", [("10", [("id", num 10); ("title", VStr "Hi");
                              ("author", num 1); ("userId", num 1)])]);
            ("User", [("1", [("id", num 1); ("name", VStr "Ada")])])]
           "Post"
           [("10", [("id", num 10); ("title", VStr "Hi");
                    ("author", num 1); ("userId", num 1)])]
           "10").
  - reflexivity.
  - simpl. auto.
  - simpl. auto.
Defined.

(** C1 as stated fails: [Post] has the belongs-to field [author] with
    foreign key [userId], and the post [{id: 10, title: 'Hi'}], which
    names no author, leaves [normalize] without a value at [userId]. *)
Lemma normalize_leaves_foreign_key_undefined :
  belongsTo_key (fields (Blog.classes Blog.Post)) "author" = Some "userId" /\
  normalize Blog.classes Blog.container
    (answering [("Post", [("10", Blog.orphan)])]) Blog.Post (VObj Blog.orphan) =
    Ok [("Post", [("10", Blog.orphan)])] /\
  get Blog.orphan "userId" = VUndef.
Proof. repeat split. Qed.

(** ** Relation resolution *)

(** C3: a polymorphic descriptor resolves to the container's model named
    by the [type] read from the descriptor's value, whatever its declared
    target; a descriptor that is not polymorphic resolves to the
    container's model of that name when the target is a string and to the
    target itself otherwise. *)
Theorem resolveRelation_cases classes container c attr :
  (polymorphic attr = true ->
   resolveRelation classes container c attr =
     (name <-? get_type (Attributes.value attr) ;;
      relation classes container c name) /\
   forall o name,
     Lodash.entries (Attributes.value attr) = o ->
     get o "type" = VStr name ->
     resolveRelation classes container c attr =
       match container (connection (classes c)) name with
       | Some model => Ok model
       | None => Throw UnknownModel
       end) /\
  (polymorphic attr = false ->
   (forall name, model_of attr = Some (inr name) ->
      resolveRelation classes container c attr =
        match container (connection (classes c)) name with
        | Some model => Ok model
        | None => Throw UnknownModel
        end) /\
   (forall model, model_of attr = Some (inl model) ->
      resolveRelation classes container c attr = Ok model)).
Proof.
  unfold resolveRelation. split; intros Hp; rewrite Hp.
  - split; [reflexivity|]. intros o name Ho Ht.
    destruct (Attributes.value attr); simpl in *;
      subst o; try rewrite Ht; try reflexivity; discriminate.
  - split; intros x Hx; now rewrite Hx.
Qed.

Lemma resolveRelation_cases_witness :
  resolveRelation Blog.classes Blog.container Blog.User commentable =
    Ok Blog.Post /\
  resolveRelation Blog.classes Blog.container Blog.User
    (Attributes.hasOne (inr "Profile") "userId" false) = Ok Blog.Profile /\
  resolveRelation Blog.classes Blog.container Blog.User
    (Attributes.hasMany (inl Blog.Post) "userId" false) = Ok Blog.Post.
Proof.
  split; [|split].
  - destruct (resolveRelation_cases Blog.classes Blog.container Blog.User
                commentable) as [H _].
    destruct (H eq_refl) as [_ H'].
    now rewrite (H' _ "Post" eq_refl eq_refl).
  - destruct (resolveRelation_cases Blog.classes Blog.container Blog.User
                (Attributes.hasOne (inr "Profile") "userId" false)) as [_ H].
    destruct (H eq_refl) as [H' _]. now rewrite (H' "Profile" eq_refl).
  - destruct (resolveRelation_cases Blog.classes Blog.container Blog.User
                (Attributes.hasMany (inl Blog.Post) "userId" false)) as [_ H].
    destruct (H eq_refl) as [_ H']. now rewrite (H' Blog.Post eq_refl).
Defined.

(** ** Serialization *)

Lemma rmap_ext {A B} (f g : A -> result B) l :
  (forall x, f x = g x) -> rmap f l = rmap g l.
Proof.
  intros H. induction l as [|x l IH]; simpl; auto. now rewrite H, IH.
Qed.

Lemma mapValuesR_ext {A B} (f g : A -> string -> result B) o :
  (forall a k, f a k = g a k) ->
  Lodash.mapValuesR f o = Lodash.mapValuesR g o.
Proof. intros H. apply rmap_ext. intros [k a]. simpl. now rewrite H. Qed.

Lemma mapValuesR_all {A B} (f : A -> string -> result B) (w : string -> A -> B)
  (o : list (string * A)) :
  (forall k a, In (k, a) o -> f a k = Ok (w k a)) ->
  Lodash.mapValuesR f o = Ok (map (fun ka => (fst ka, w (fst ka) (snd ka))) o).
Proof.
  unfold Lodash.mapValuesR. induction o as [|[k a] o IH]; intros H; auto.
  simpl. rewrite (H k a) by now left. simpl.
  rewrite IH by (intros; apply H; now right). reflexivity.
Qed.

Lemma instance_self_Ok c this :
  lookup "$self" this = None -> lookup "constructor" this = None ->
  instance_self c this = Ok c.
Proof. intros H1 H2. unfold instance_self. now rewrite H1, H2. Qed.

Lemma instance_self_inv c this m :
  instance_self c this = Ok m ->
  m = c /\ lookup "$self" this = None /\ lookup "constructor" this = None.
Proof.
  unfold instance_self.
  destruct (lookup "$self" this); [discriminate|].
  destruct (lookup "constructor" this); [discriminate|].
  intros [= <-]. auto.
Qed.

Lemma toJson_instance classes c props :
  lookup "$toJson" props = None -> instance_self c props = Ok c ->
  toJson classes (VInst c props) =
    (json <-? Lodash.mapValuesR (emit classes props) (fields (classes c)) ;;
     Ok (VObj json)).
Proof.
  intros Hj Hs. cbn [toJson]. rewrite Hj, Hs. cbn [rbind].
  f_equal. apply mapValuesR_ext. intros attr key.
  unfold emit, get. clear Hj Hs.
  induction props as [|[k p] props IH]; [reflexivity|].
  cbn [lookup]. destruct (String.eqb key k); [|exact IH].
  destruct (truthy p); simpl; [|reflexivity].
  destruct (Attributes.type attr); reflexivity.
Qed.

Lemma toJson_Ok classes c props json :
  toJson classes (VInst c props) = Ok json ->
  lookup "$toJson" props = None /\ instance_self c props = Ok c.
Proof.
  cbn [toJson]. destruct (lookup "$toJson" props); [discriminate|].
  destruct (instance_self c props) as [m| |] eqn:E; try discriminate.
  apply instance_self_inv in E as [-> _]. auto.
Qed.





(** ** Instantiation *)

Lemma forEachM_cons_Ok {A S} (f : S -> A -> string -> M S) k a o s st s' st' :
  Lodash.forEachM f ((k, a) :: o) s st = Ok (s', st') ->
  exists s1 st1, f s a k st = Ok (s1, st1) /\
                 Lodash.forEachM f o s1 st1 = Ok (s', st').
Proof. simpl. intros H. now apply bind_Ok in H. Qed.

Lemma mapM_cons_Ok {A B} (f : A -> M B) x l st ys st' :
  mapM f (x :: l) st = Ok (ys, st') ->
  exists y st1 ys', f x st = Ok (y, st1) /\ mapM f l st1 = Ok (ys', st') /\
                    ys = y :: ys'.
Proof.
  simpl. intros H. apply bind_Ok in H as (y & st1 & Hy & H).
  apply bind_Ok in H as (ys' & st2 & Hys & H).
  injection H as <- <-. eauto 6.
Qed.

(** Inversion of a computation that returned. *)
Ltac monad_inv H :=
  repeat
    match type of H with
    | ret _ _ = Ok _ => unfold ret in H; injection H as ? ?; subst
    | Ok _ = Ok _ => injection H as ? ?; subst
    | throw _ _ = Ok _ => discriminate H
    | Throw _ = Ok _ => discriminate H
    | OutOfFuel = Ok _ => discriminate H
    | bind _ _ _ = Ok _ =>
        let a := fresh "a" in let st := fresh "st" in let Ha := fresh "Ha" in
        apply bind_Ok in H as (a & st & Ha & H)
    end.

Section Instantiate.

Variable classes : class_id -> Model.
Variable container : string -> string -> option class_id.

Lemma deref_eq c key field st :
  deref classes c key field st = Ok (current classes c key field st, st).
Proof.
  unfold deref, current.
  destruct (lookup key (retained (classes c))); auto.
  now destruct (store_get st l).
Qed.

Lemma initialize_field_eq new c this field key st :
  initialize_field classes container new c this field key st =
  let field' := current classes c key field st in
  let value := Attributes.value field' in
  (if is_null value then ret (set this key VNull)
   else
     match field' with
     | Attr _ mutator =>
         v <- lift (mutated classes c this key mutator value) ;;
         ret (set this key v)
     | _ =>
         if Lodash.isNumber value then ret (set this key VNull)
         else
           first <- lift (index0 value) ;;
           if Lodash.isNumber first then ret (set this key VNull)
           else
             match Attributes.type field' with
             | THasOne | TBelongsTo =>
                 model <- lift (instance_resolveRelation classes container
                                  c this field') ;;
                 if truthy value then
                   inst <- new model value ;; ret (set this key inst)
                 else ret (set this key VNull)
             | THasMany | THasManyBy =>
                 model <- lift (instance_resolveRelation classes container
                                  c this field') ;;
                 if truthy value then
                   match value with
                   | VArr l =>
                       insts <- mapM (new model) l ;;
                       ret (set this key (VArr insts))
                   | _ => throw TypeError
                   end
                 else ret (set this key VNull)
             | TAttr => ret this
             end
     end) st.
Proof.
  unfold initialize_field, bind at 1. rewrite deref_eq. cbv zeta.
  destruct (is_null (Attributes.value (current classes c key field st)));
    [reflexivity|].
  destruct (current classes c key field st) as [v [f|]| | | |];
    try reflexivity.
  unfold mutated, bind, lift. simpl.
  destruct (instance_self c this); reflexivity.
Qed.

Lemma mutated_own c this key f v :
  mutated classes c this key (Some f) v = Ok (f v).
Proof. reflexivity. Qed.

Lemma mutators_get_plain (ms : Mutators) key :
  ~ In key Object_prototype ->
  mutators_get ms key = option_map Own (lookup key ms).
Proof.
  intros H. unfold mutators_get. destruct (lookup key ms); [reflexivity|].
  destruct (Lodash.includes Object_prototype key) eqn:E; [|reflexivity].
  exfalso. apply H. unfold Lodash.includes in E.
  apply existsb_exists in E as [x [Hin Hx]].
  apply String.eqb_eq in Hx. now subst.
Qed.

(** With the methods in place and under a name that [mutators()] does not
    inherit, the mutator is the descriptor's own, else the registered
    one, else none. *)
Lemma mutated_plain c this key own v :
  instance_self c this = Ok c ->
  (own = None -> lookup key (mutators (classes c)) = None ->
   ~ In key Object_prototype) ->
  mutated classes c this key own v =
  Ok (mutate (mutator_for classes c key own) v).
Proof.
  intros Hs Hk. unfold mutated. destruct own as [f|]; [reflexivity|].
  rewrite Hs. simpl. unfold mutators_get.
  destruct (lookup key (mutators (classes c))) eqn:E; [reflexivity|].
  destruct (Lodash.includes Object_prototype key) eqn:Ei; [|reflexivity].
  exfalso. apply Hk; auto. unfold Lodash.includes in Ei.
  apply existsb_exists in Ei as [x [Hin Hx]].
  apply String.eqb_eq in Hx. now subst.
Qed.

Lemma mutated_runs c this key own v :
  mutated classes c this key own v <> OutOfFuel.
Proof.
  unfold mutated. destruct own as [f|]; [discriminate|].
  unfold instance_self.
  destruct (lookup "$self" this); [discriminate|].
  destruct (lookup "constructor" this); [discriminate|]. simpl.
  unfold mutators_get. destruct (lookup key (mutators (classes c)));
    [discriminate|].
  destruct (Lodash.includes Object_prototype key); [|discriminate].
  simpl. unfold Object_prototype_call.
  repeat match goal with
         | |- context [if ?b then _ else _] => destruct b
         end; discriminate.
Qed.

Lemma instance_resolveRelation_Ok c this attr :
  intact this ->
  instance_resolveRelation classes container c this attr =
  resolveRelation classes container c attr.
Proof.
  intros (H1 & H2 & H3). unfold instance_resolveRelation, instance_self.
  now rewrite H1, H2, H3.
Qed.

Lemma instance_resolveRelation_inv c this attr m :
  instance_resolveRelation classes container c this attr = Ok m ->
  resolveRelation classes container c attr = Ok m.
Proof.
  unfold instance_resolveRelation.
  destruct (lookup "$resolveRelation" this); [discriminate|].
  intros H. apply rbind_Ok in H as [self [Hs H]].
  apply instance_self_inv in Hs as [-> _]. exact H.
Qed.

Lemma instance_resolveRelation_runs c this attr :
  resolveRelation classes container c attr <> OutOfFuel ->
  instance_resolveRelation classes container c this attr <> OutOfFuel.
Proof.
  intros H. unfold instance_resolveRelation, instance_self.
  destruct (lookup "$resolveRelation" this); [discriminate|].
  destruct (lookup "$self" this); [discriminate|].
  destruct (lookup "constructor" this); [discriminate|]. exact H.
Qed.

(** A field whose value is [null] is assigned [null], whatever its type. *)
Lemma initialize_field_null new c this field key st :
  Attributes.value (current classes c key field st) = VNull ->
  initialize_field classes container new c this field key st =
  Ok (set this key VNull, st).
Proof. intros H. rewrite initialize_field_eq. cbv zeta. now rewrite H. Qed.

(** An attribute with another value is assigned the mutated value. *)
Lemma initialize_field_attr new c this field key st v mutator :
  current classes c key field st = Attr v mutator -> v <> VNull ->
  initialize_field classes container new c this field key st =
  (x <- lift (mutated classes c this key mutator v) ;; ret (set this key x)) st.
Proof.
  intros H Hv. rewrite initialize_field_eq. cbv zeta. rewrite H. simpl.
  destruct v; try reflexivity. congruence.
Qed.

Lemma initialize_field_attr_plain new c this field key st v mutator :
  current classes c key field st = Attr v mutator -> v <> VNull ->
  instance_self c this = Ok c ->
  (mutator = None -> lookup key (mutators (classes c)) = None ->
   ~ In key Object_prototype) ->
  initialize_field classes container new c this field key st =
  Ok (set this key (mutate (mutator_for classes c key mutator) v), st).
Proof.
  intros H Hv Hs Hk.
  rewrite (initialize_field_attr _ _ _ _ _ _ _ _ H Hv).
  unfold bind, lift. now rewrite mutated_plain.
Qed.

(** A relation whose value is a number, or has a number as first element,
    is assigned [null]. *)
Lemma initialize_field_number new c this field key st :
  let field' := current classes c key field st in
  Attributes.isRelation field' = true ->
  (Lodash.isNumber (Attributes.value field') = true \/
   exists first, index0 (Attributes.value field') = Ok first /\
                 Lodash.isNumber first = true) ->
  initialize_field classes container new c this field key st =
  Ok (set this key VNull, st).
Proof.
  intros field' Hrel Hnum. rewrite initialize_field_eq. fold field'. cbv zeta.
  destruct (is_null (Attributes.value field')) eqn:En; [reflexivity|].
  destruct field' as [v m|t fk v p|t fk v p|t fk v p|t fk ok v p];
    try discriminate Hrel; simpl in *;
    (destruct Hnum as [Hn|[first [Hi Hf]]];
     [now rewrite Hn
     | destruct (Lodash.isNumber v); [reflexivity|];
       unfold bind, lift; rewrite Hi; simpl; now rewrite Hf]).
Qed.

(** Whatever the callback assigns, it assigns to [this[key]]. *)
Lemma initialize_field_sets new c this field key st this' st' :
  initialize_field classes container new c this field key st = Ok (this', st') ->
  exists x, this' = set this key x.
Proof.
  rewrite initialize_field_eq. cbv zeta.
  set (field' := current classes c key field st).
  destruct (is_null (Attributes.value field')).
  { intros H. monad_inv H. eauto. }
  destruct field' as [v m|t fk v p|t fk v p|t fk v p|t fk ok v p]; simpl;
    intros H.
  { monad_inv H. eauto. }
  all: destruct (Lodash.isNumber v); [monad_inv H; eauto|].
  all: monad_inv H.
  all: destruct (Lodash.isNumber a); [monad_inv H; eauto|].
  all: monad_inv H.
  all: destruct (truthy v); [|monad_inv H; eauto].
  all: try (monad_inv H; eauto; fail).
  all: destruct v; try discriminate H; monad_inv H; eauto.
Qed.

Lemma initialize_field_frame new c this field key st this' st' k :
  initialize_field classes container new c this field key st = Ok (this', st') ->
  k <> key -> get this' k = get this k.
Proof.
  intros H Hk. apply initialize_field_sets in H as [x ->].
  apply get_set_other. congruence.
Qed.

Lemma forEachM_initialize_keys new c flds this st this' st' k :
  Lodash.forEachM (initialize_field classes container new c) flds this st =
    Ok (this', st') ->
  In k (keys this') <-> In k (keys this) \/ In k (keys flds).
Proof.
  revert this st. induction flds as [|[key field] flds IH]; intros this st H.
  - simpl in H. monad_inv H. simpl. tauto.
  - apply forEachM_cons_Ok in H as (this1 & st1 & H1 & H).
    rewrite (IH _ _ H). apply initialize_field_sets in H1 as [x ->].
    rewrite In_keys_set. simpl. intuition.
Qed.

Lemma forEachM_initialize_frame new c flds this st this' st' k :
  Lodash.forEachM (initialize_field classes container new c) flds this st =
    Ok (this', st') ->
  ~ In k (keys flds) -> get this' k = get this k.
Proof.
  revert this st. induction flds as [|[key field] flds IH]; intros this st H Hk.
  - simpl in H. monad_inv H. reflexivity.
  - apply forEachM_cons_Ok in H as (this1 & st1 & H1 & H).
    simpl in Hk. rewrite (IH _ _ H) by tauto.
    eapply initialize_field_frame; [eassumption|]. intros ->. tauto.
Qed.

(** With each key declared once, the property under [key] is the one that
    the callback assigned when it came to [key]. *)
Lemma forEachM_initialize_get new c flds this st this' st' key field :
  NoDup (keys flds) ->
  Lodash.forEachM (initialize_field classes container new c) flds this st =
    Ok (this', st') ->
  lookup key flds = Some field ->
  exists this0 st0 this1 st1,
    initialize_field classes container new c this0 field key st0 =
      Ok (this1, st1) /\
    get this' key = get this1 key.
Proof.
  revert this st. induction flds as [|[k f] flds IH]; intros this st Hnd H Hl.
  - discriminate.
  - apply forEachM_cons_Ok in H as (this1 & st1 & H1 & H).
    inversion Hnd; subst. simpl in Hl.
    destruct (String.eqb key k) eqn:E.
    + apply String.eqb_eq in E. subst k. injection Hl as ->.
      exists this, st, this1, st1. split; [assumption|].
      eapply forEachM_initialize_frame; eassumption.
    + eapply IH; eassumption.
Qed.

(** *** The merge step *)

Lemma assign_value_keys c newFields key v st newFields' st' :
  assign_value classes c newFields key v st = Ok (newFields', st') ->
  keys newFields' = keys newFields.
Proof.
  unfold assign_value.
  destruct (lookup key (retained (classes c))).
  - intros H. now monad_inv H.
  - destruct (lookup key newFields) eqn:E; intros H; monad_inv H.
    apply keys_set_present. apply lookup_In_keys. congruence.
Qed.

Lemma mergeFields_keys c data st merged st' :
  mergeFields classes c data st = Ok (merged, st') ->
  keys merged = keys (fields (classes c)).
Proof.
  unfold mergeFields. destruct (negb (truthy data)).
  { intros H. now monad_inv H. }
  generalize (keys (fields (classes c))) at 1 as fieldKeys.
  intros fieldKeys.
  generalize (fields (classes c)) as newFields. revert st.
  induction (Lodash.entries data) as [|[k v] es IH]; intros st nf H.
  - simpl in H. now monad_inv H.
  - apply forEachM_cons_Ok in H as (nf1 & st1 & H1 & H).
    rewrite (IH _ _ H).
    destruct (negb (Lodash.includes fieldKeys k)).
    + now monad_inv H1.
    + eapply assign_value_keys; eassumption.
Qed.

Lemma forEachM_merge_filter c fieldKeys o newFields st :
  Lodash.forEachM
    (fun newFields value key =>
       if negb (Lodash.includes fieldKeys key) then ret newFields
       else assign_value classes c newFields key value) o newFields st =
  Lodash.forEachM
    (fun newFields value key =>
       if negb (Lodash.includes fieldKeys key) then ret newFields
       else assign_value classes c newFields key value)
    (filter (fun kv => Lodash.includes fieldKeys (fst kv)) o) newFields st.
Proof.
  revert newFields st.
  induction o as [|[k v] o IH]; intros nf st; [reflexivity|].
  simpl filter. destruct (Lodash.includes fieldKeys k) eqn:E.
  - simpl. rewrite E. simpl. unfold bind.
    destruct (assign_value classes c nf k v st) as [[nf1 st1]| |]; auto.
  - simpl. rewrite E. simpl. unfold bind, ret. apply IH.
Qed.

(** Payload keys that name no declared field do not reach the merge. *)
Lemma mergeFields_ignores_unknown c o st :
  mergeFields classes c (VObj o) st =
  mergeFields classes c
    (VObj (filter (fun kv => Lodash.includes (keys (fields (classes c))) (fst kv))
             o)) st.
Proof. unfold mergeFields. simpl. apply forEachM_merge_filter. Qed.

Lemma instantiate_Ok fuel c data st inst st' :
  instantiate classes container fuel c data st = Ok (inst, st') ->
  exists n merged st1 this,
    fuel = S n /\
    mergeFields classes c data st = Ok (merged, st1) /\
    Lodash.forEachM (initialize_field classes container
                       (instantiate classes container n) c) merged [] st1 =
      Ok (this, st') /\
    inst = VInst c this.
Proof.
  destruct fuel as [|n]; simpl; [discriminate|].
  unfold initialize. intros H. monad_inv H.
  apply bind_Ok in Ha as (merged & st1 & Hm & Hf).
  exists n, merged, st1, a. auto.
Qed.

End Instantiate.

Section InstantiateClaims.

Variable classes : class_id -> Model.
Variable container : string -> string -> option class_id.

Lemma instantiate_assigns fuel c data st inst st' merged st1 key field :
  instantiate classes container fuel c data st = Ok (inst, st') ->
  NoDup (keys (fields (classes c))) ->
  mergeFields classes c data st = Ok (merged, st1) ->
  lookup key merged = Some field ->
  exists n this this0 st0 this1 st2,
    fuel = S n /\ inst = VInst c this /\
    initialize_field classes container (instantiate classes container n)
      c this0 field key st0 = Ok (this1, st2) /\
    get this key = get this1 key.
Proof.
  intros Hi Hnd Hm Hl.
  apply instantiate_Ok in Hi as (n & merged' & st1' & this & -> & Hm' & Hf & ->).
  rewrite Hm in Hm'. injection Hm' as <- <-.
  assert (Hnd' : NoDup (keys merged))
    by (erewrite mergeFields_keys; eassumption).
  destruct (forEachM_initialize_get _ _ _ _ _ _ _ _ _ _ _ Hnd' Hf Hl)
    as (this0 & st0 & this1 & st2 & H1 & H2).
  exists n, this, this0, st0, this1, st2. auto.
Qed.

Lemma instance_self_cases c this :
  instance_self c this = Ok c \/ instance_self c this = Throw TypeError.
Proof.
  unfold instance_self. destruct (lookup "$self" this); auto.
  destruct (lookup "constructor" this); auto.
Qed.

Lemma mutated_Ok_plain c this key own v x :
  mutated classes c this key own v = Ok x ->
  (own = None -> lookup key (mutators (classes c)) = None ->
   ~ In key Object_prototype) ->
  x = mutate (mutator_for classes c key own) v.
Proof.
  intros H Hk.
  assert (Hs : own <> None \/ instance_self c this = Ok c).
  { destruct own; [left; discriminate|]. right.
    destruct (instance_self_cases c this) as [E|E]; [exact E|].
    unfold mutated in H. rewrite E in H. discriminate. }
  destruct Hs as [Hs|Hs].
  - destruct own as [f|]; [|congruence]. now injection H as <-.
  - rewrite mutated_plain in H by assumption. now injection H.
Qed.


(** C2: when [$initialize] comes to a relation field (has-one,
    belongs-to, has-many, has-many-by) whose merged value is a number, or
    has a number as first element, it assigns [null] and calls no [new];
    the instance that [instantiate] returns holds [null] there. *)
Theorem instantiate_number_placeholder c key field :
  (forall new this st,
     let field' := current classes c key field st in
     Attributes.isRelation field' = true ->
     Lodash.isNumber (Attributes.value field') = true \/
     (exists first, index0 (Attributes.value field') = Ok first /\
                    Lodash.isNumber first = true) ->
     initialize_field classes container new c this field key st =
       Ok (set this key VNull, st)) /\
  (forall fuel data st inst st' merged st1,
     instantiate classes container fuel c data st = Ok (inst, st') ->
     NoDup (keys (fields (classes c))) ->
     mergeFields classes c data st = Ok (merged, st1) ->
     lookup key merged = Some field ->
     exists this st0,
       inst = VInst c this /\
       let field' := current classes c key field st0 in
       (lookup key (retained (classes c)) = None -> field' = field) /\
       (Attributes.isRelation field' = true ->
        Lodash.isNumber (Attributes.value field') = true \/
        (exists first, index0 (Attributes.value field') = Ok first /\
                       Lodash.isNumber first = true) ->
        get this key = VNull)).
Proof.
  split.
  - intros new this st field'. apply initialize_field_number.
  - intros fuel data st inst st' merged st1 Hi Hnd Hm Hl.
    destruct (instantiate_assigns _ _ _ _ _ _ _ _ _ _ Hi Hnd Hm Hl)
      as (n & this & this0 & st0 & this1 & st2 & -> & -> & H1 & H2).
    exists this, st0. split; [reflexivity|]. cbv zeta. split.
    + intros Hr. unfold current. now rewrite Hr.
    + intros Hrel Hnum.
      rewrite (initialize_field_number _ _ _ _ _ _ _ _ Hrel Hnum) in H1.
      injection H1 as <- <-. now rewrite H2, get_set_same.
Qed.

End InstantiateClaims.

Lemma Blog_builds_afresh : builds_afresh Blog.classes.
Proof. intros [|[|[|c]]]; reflexivity. Qed.

Lemma Blog_User_keys : NoDup (keys (fields (Blog.classes Blog.User))).
Proof. repeat constructor; simpl; intuition discriminate. Qed.

Lemma instantiate_number_placeholder_witness :
  instantiate Blog.classes Blog.container 1 Blog.User user_with_profile_id [] =
    Ok (VInst Blog.User
          [("id", VNull); ("name", VStr ""); ("posts", VNull);
           ("profile", VNull)], []) /\
  get [("id", VNull); ("name", VStr ""); ("posts", VNull); ("profile", VNull)]
      "profile" = VNull /\
  initialize_field Blog.classes Blog.container
    (instantiate Blog.classes Blog.container 0) Blog.User []
    (HasOne (inr "Profile") "userId" (num 5) false) "profile" [] =
    Ok ([("profile", VNull)], []).
Proof.
  destruct (instantiate_number_placeholder Blog.classes Blog.container
              Blog.User "profile"
              (HasOne (inr "Profile") "userId" (num 5) false))
    as [Hstep Hinst].
  split; [reflexivity|]. split.
  - destruct (Hinst 1 user_with_profile_id []
                (VInst Blog.User
                   [("id", VNull); ("name", VStr ""); ("posts", VNull);
                    ("profile", VNull)]) []
                [("id", Attr VNull None); ("name", Attr (VStr "") None);
                 ("posts", HasMany (inl Blog.Post) "userId" VNull false);
                 ("profile", HasOne (inr "Profile") "userId" (num 5) false)]
                [] eq_refl Blog_User_keys eq_refl eq_refl)
      as (this & st0 & Heq & Hown & Hnum).
    injection Heq as <-. rewrite (Hown eq_refl) in Hnum.
    apply Hnum; [reflexivity | left; reflexivity].
  - apply (Hstep (instantiate Blog.classes Blog.container 0) [] []);
      [reflexivity | left; reflexivity].
Defined.



(** C9 fails on the code: the copy that [$mergeFields] takes of the field
    map is shallow, so [newFields[key].value = value] writes the
    descriptor that [fields()] handed out.  When [fields()] returns
    descriptors it keeps, [instantiate(Tag, {name: 'Ada'})] writes ['Ada']
    into the kept descriptor; [fields()] then returns the default ['Ada']
    instead of [''], and [new Tag()] gets the name ['Ada'] instead of
    ['']. *)
Lemma instantiate_writes_retained_descriptor :
  instantiate Cached.classes Cached.container 1 0 ada [] =
    Ok (VInst 0 [("name", VStr "Ada")], [(0, VStr "Ada")]) /\
  call_fields Cached.classes 0 [] = [("name", Attr (VStr "") None)] /\
  call_fields Cached.classes 0 [(0, VStr "Ada")] =
    [("name", Attr (VStr "Ada") None)] /\
  instantiate Cached.classes Cached.container 1 0 VUndef [] =
    Ok (VInst 0 [("name", VStr "")], []) /\
  instantiate Cached.classes Cached.container 1 0 VUndef [(0, VStr "Ada")] =
    Ok (VInst 0 [("name", VStr "Ada")], [(0, VStr "Ada")]).
Proof. repeat split. Qed.

(** ** Reading a serialization back *)

Lemma value_set_value a v : Attributes.value (Attributes.set_value a v) = v.
Proof. now destruct a. Qed.

Lemma set_value_value a : Attributes.set_value a (Attributes.value a) = a.
Proof. now destruct a. Qed.

Lemma set_value_twice a v w :
  Attributes.set_value (Attributes.set_value a v) w = Attributes.set_value a w.
Proof. now destruct a. Qed.

Lemma type_set_value a v :
  Attributes.type (Attributes.set_value a v) = Attributes.type a.
Proof. now destruct a. Qed.

Lemma resolveRelation_static classes container c field v :
  polymorphic field = false ->
  resolveRelation classes container c (Attributes.set_value field v) =
  target_of classes container c field.
Proof.
  intros Hp. unfold resolveRelation, target_of.
  destruct field; simpl in *; try rewrite Hp; reflexivity.
Qed.

Lemma set_absent {A} (o : list (string * A)) k v :
  ~ In k (keys o) -> set o k v = o ++ [(k, v)].
Proof.
  induction o as [|[k' a] o IH]; simpl; intros H; auto.
  destruct (String.eqb k k') eqn:E.
  - apply String.eqb_eq in E. subst. tauto.
  - f_equal. apply IH. tauto.
Qed.

Lemma alist_ext {A} (o o' : list (string * A)) :
  NoDup (keys o) -> keys o = keys o' ->
  (forall k, In k (keys o) -> lookup k o = lookup k o') -> o = o'.
Proof.
  revert o'. induction o as [|[k v] o IH]; intros [|[k' v'] o'] Hnd Hk Hg;
    simpl in *; try discriminate; auto.
  injection Hk as <- Hk. inversion Hnd; subst.
  f_equal.
  - f_equal. specialize (Hg k (or_introl eq_refl)).
    rewrite String.eqb_refl in Hg. congruence.
  - apply IH; auto. intros k0 Hin.
    specialize (Hg k0 (or_intror Hin)).
    destruct (String.eqb k0 k) eqn:E; auto.
    apply String.eqb_eq in E. subst. contradiction.
Qed.

Lemma mapM_Forall {A B} (f : A -> M B) (P : B -> Prop) l st ys st' :
  (forall x st y st', f x st = Ok (y, st') -> P y) ->
  mapM f l st = Ok (ys, st') -> Forall P ys.
Proof.
  intros Hf. revert st ys. induction l as [|x l IH]; intros st ys H.
  - simpl in H. monad_inv H. constructor.
  - apply mapM_cons_Ok in H as (y & st1 & ys' & Hy & Hys & ->).
    constructor; eauto.
Qed.

Section Roundtrip.

Variable classes : class_id -> Model.
Variable container : string -> string -> option class_id.
Hypothesis Hreadable : readable classes.

Lemma current_afresh c key field st : current classes c key field st = field.
Proof. unfold current. now rewrite (readable_afresh _ Hreadable). Qed.

Lemma declared_not_inherited c key decl :
  In (key, decl) (fields (classes c)) -> ~ In key inherited_names.
Proof.
  intros Hin. apply (readable_names _ Hreadable c).
  change key with (fst (key, decl)). now apply in_map.
Qed.

Lemma declared_not_Object_prototype c key decl :
  In (key, decl) (fields (classes c)) -> ~ In key Object_prototype.
Proof.
  intros Hin Hk. apply (declared_not_inherited _ _ _ Hin).
  unfold inherited_names. apply in_or_app. now right.
Qed.

(** What the callback assigns holds for the declared field. *)
Lemma initialize_field_holds new inst_of c this key decl w st this1 st1 :
  In (key, decl) (fields (classes c)) ->
  (forall m v st x st', new m v st = Ok (x, st') -> inst_of m x) ->
  initialize_field classes container new c this (Attributes.set_value decl w)
    key st = Ok (this1, st1) ->
  holds classes container inst_of c key decl (get this1 key).
Proof.
  intros Hin Hnew. rewrite initialize_field_eq, current_afresh. cbv zeta.
  rewrite value_set_value, type_set_value.
  assert (Hs := readable_static _ Hreadable _ _ _ Hin).
  assert (Hm := fun v => readable_mutators _ Hreadable c key decl v Hin).
  unfold holds.
  destruct (is_null w).
  { intros H. monad_inv H. rewrite get_set_same. now left. }
  destruct decl as [d own|t fk d p|t fk d p|t fk d p|t fk ok d p];
    cbn [Attributes.set_value Attributes.type]; intros H.
  { monad_inv H. apply lift_Ok in Ha as [Ha ->].
    rewrite get_set_same. right.
    rewrite (mutated_Ok_plain _ _ _ _ _ _ _ Ha); [apply Hm|].
    intros _ _. eapply declared_not_Object_prototype; eassumption. }
  all: destruct (Lodash.isNumber w);
    [monad_inv H; rewrite get_set_same; now left|].
  all: monad_inv H; apply lift_Ok in Ha as [_ ->].
  all: destruct (Lodash.isNumber a);
    [monad_inv H; rewrite get_set_same; now left|].
  all: monad_inv H; apply lift_Ok in Ha as [Hres ->].
  all: apply instance_resolveRelation_inv in Hres.
  all: match type of Hres with
       | resolveRelation _ _ _ ?f = _ =>
           change f with (Attributes.set_value f w) in Hres
       end;
    rewrite resolveRelation_static in Hres by exact Hs.
  all: destruct (truthy w);
    [|monad_inv H; rewrite get_set_same; now left].
  all: try (monad_inv H; rewrite get_set_same; right; eexists;
            split; [exact Hres | eapply Hnew; eassumption]).
  all: destruct w; try discriminate H; monad_inv H; rewrite get_set_same;
    right; do 2 eexists; split; [exact Hres|]; split; [reflexivity|];
    eapply mapM_Forall; [|eassumption]; intros; eapply Hnew; eassumption.
Qed.

Lemma mergeFields_lookup c data st merged st' key decl :
  mergeFields classes c data st = Ok (merged, st') ->
  lookup key (fields (classes c)) = Some decl ->
  exists w, lookup key merged = Some (Attributes.set_value decl w).
Proof.
  unfold mergeFields. destruct (negb (truthy data)).
  { intros H Hl. monad_inv H. exists (Attributes.value decl).
    now rewrite set_value_value. }
  generalize (keys (fields (classes c))) as fieldKeys. intros fieldKeys.
  intros H Hl. revert H.
  assert (H0 : exists w, lookup key (fields (classes c)) =
                         Some (Attributes.set_value decl w))
    by (exists (Attributes.value decl); now rewrite set_value_value).
  revert H0. generalize (fields (classes c)) as newFields. revert st.
  induction (Lodash.entries data) as [|[k v] es IH]; intros st nf H0 H.
  - simpl in H. now monad_inv H.
  - apply forEachM_cons_Ok in H as (nf1 & st1 & H1 & H).
    eapply IH; [|exact H]. clear H IH.
    destruct (negb (Lodash.includes fieldKeys k)).
    { now monad_inv H1. }
    unfold assign_value in H1.
    rewrite (readable_afresh _ Hreadable) in H1. simpl in H1.
    destruct (lookup k nf) as [attr|] eqn:E; monad_inv H1.
    destruct (String.eqb k key) eqn:Ek.
    + apply String.eqb_eq in Ek. subst k. rewrite lookup_set_same.
      destruct H0 as [w Hw]. rewrite E in Hw. injection Hw as ->.
      exists v. now rewrite set_value_twice.
    + apply String.eqb_neq in Ek. now rewrite lookup_set_other.
Qed.

Lemma forEachM_initialize_keys_list new c flds this st this' st' :
  NoDup (keys this ++ keys flds) ->
  Lodash.forEachM (initialize_field classes container new c) flds this st =
    Ok (this', st') ->
  keys this' = keys this ++ keys flds.
Proof.
  revert this st. induction flds as [|[key field] flds IH]; intros this st Hnd H.
  - simpl in H. monad_inv H. simpl. now rewrite app_nil_r.
  - apply forEachM_cons_Ok in H as (this1 & st1 & H1 & H).
    apply initialize_field_sets in H1 as [x ->].
    simpl in Hnd.
    assert (Hk : ~ In key (keys this)).
    { intros Hin. apply NoDup_remove_2 in Hnd. apply Hnd.
      apply in_or_app. now left. }
    rewrite set_absent in H by assumption.
    assert (Hnd' : NoDup (keys (this ++ [(key, x)]) ++ keys flds)).
    { unfold keys. rewrite map_app, <- app_assoc. exact Hnd. }
    rewrite (IH _ _ Hnd' H).
    unfold keys. rewrite map_app, <- app_assoc. reflexivity.
Qed.

(** What [instantiate] returns is an instance of the class. *)
Lemma instantiate_instance_of fuel c data st inst st' :
  instantiate classes container fuel c data st = Ok (inst, st') ->
  instance_of classes container fuel c inst.
Proof.
  revert c data st inst st'.
  induction fuel as [|n IH]; intros c data st inst st' H; [discriminate|].
  pose proof H as Hi.
  apply instantiate_Ok in H as (n' & merged & st1 & this & [= <-] & Hm & Hf & ->).
  assert (Hk := mergeFields_keys _ _ _ _ _ _ Hm).
  assert (Hnd := readable_keys _ Hreadable c).
  simpl. split; [reflexivity|]. split.
  - rewrite <- Hk.
    refine (forEachM_initialize_keys_list _ _ _ _ _ _ _ _ Hf).
    simpl. now rewrite Hk.
  - intros key decl Hin.
    assert (Hl := In_lookup_NoDup _ _ _ Hnd Hin).
    destruct (mergeFields_lookup _ _ _ _ _ _ _ Hm Hl) as [w Hw].
    destruct (instantiate_assigns _ _ _ _ _ _ _ _ _ _ _ _ Hi Hnd Hm Hw)
      as (n0 & this0 & this1 & st0 & this2 & st2 & [= <-] & [= <-] & H1 & ->).
    eapply initialize_field_holds; eauto.
Qed.

End Roundtrip.

Lemma includes_In ks k : Lodash.includes ks k = true <-> In k ks.
Proof.
  unfold Lodash.includes. rewrite existsb_exists. split.
  - intros [x [Hin E]]. apply String.eqb_eq in E. now subst.
  - intros Hin. exists k. split; [assumption | apply String.eqb_refl].
Qed.

Lemma lookup_map {A B} (g : string -> A -> B) (o : list (string * A)) k :
  lookup k (map (fun ka => (fst ka, g (fst ka) (snd ka))) o) =
  option_map (g k) (lookup k o).
Proof.
  induction o as [|[k' a] o IH]; simpl; auto.
  destruct (String.eqb k k') eqn:E; auto.
  apply String.eqb_eq in E. now subst.
Qed.

Lemma lookup_keys_eq {A B} (o : list (string * A)) (o' : list (string * B)) k :
  keys o = keys o' -> lookup k o' = None -> lookup k o = None.
Proof.
  intros Hk Hn. destruct (lookup k o) eqn:E; auto.
  assert (Hin : In k (keys o)) by (apply lookup_In_keys; congruence).
  rewrite Hk in Hin. apply lookup_In_keys in Hin. contradiction.
Qed.

(** An object whose keys are those of [flds], each once, lists under each
    key what [get] finds there. *)
Lemma object_by_keys {A} (props : object) (flds : list (string * A)) :
  NoDup (keys flds) -> keys props = keys flds ->
  map (fun kd => (fst kd, get props (fst kd))) flds = props.
Proof.
  revert props. induction flds as [|[k d] flds IH]; intros [|[k' p] props];
    simpl; intros Hnd Hk; try discriminate; auto.
  injection Hk as -> Hk. inversion Hnd; subst.
  f_equal.
  - unfold get. simpl. now rewrite String.eqb_refl.
  - transitivity (map (fun kd : string * A => (fst kd, get props (fst kd))) flds);
      [|now apply IH].
    apply map_ext_in. intros [k0 d0] Hin. simpl. f_equal.
    unfold get. simpl. destruct (String.eqb k0 k) eqn:E; auto.
    apply String.eqb_eq in E. subst. exfalso. apply H1.
    change k with (fst (k, d0)). now apply in_map.
Qed.

Lemma mapM_same {A} (f : A -> M A) l st :
  Forall (fun x => forall st, f x st = Ok (x, st)) l ->
  mapM f l st = Ok (l, st).
Proof.
  induction 1 as [|x l Hx _ IH]; [reflexivity|].
  simpl. unfold bind. now rewrite Hx, IH.
Qed.

Lemma mapM_Forall2 {A B} (f : A -> M B) l ys st :
  Forall2 (fun x y => forall st, f x st = Ok (y, st)) l ys ->
  mapM f l st = Ok (ys, st).
Proof.
  induction 1 as [|x y l ys Hx _ IH]; [reflexivity|].
  simpl. unfold bind. now rewrite Hx, IH.
Qed.

Lemma rmap_Forall {A B} (f : A -> result B) (Q : A -> B -> Prop) l :
  Forall (fun x => exists y, f x = Ok y /\ Q x y) l ->
  exists ys, rmap f l = Ok ys /\ Forall2 Q l ys.
Proof.
  induction 1 as [|x l [y [Hy HQ]] _ [ys [Hys HQs]]].
  - exists []. split; [reflexivity | constructor].
  - exists (y :: ys). simpl. rewrite Hy. simpl. rewrite Hys. simpl.
    split; [reflexivity | now constructor].
Qed.

(** *** Instances that keep their methods *)

Lemma lookup_not_key {A} (o : list (string * A)) k :
  ~ In k (keys o) -> lookup k o = None.
Proof.
  intros H. destruct (lookup k o) eqn:E; auto.
  exfalso. apply H. apply lookup_In_keys. congruence.
Qed.

Lemma intact_nil : intact [].
Proof. repeat split. Qed.

Lemma intact_set this key x :
  intact this -> ~ In key inherited_names -> intact (set this key x).
Proof.
  intros (H1 & H2 & H3) Hk. unfold intact.
  rewrite !lookup_set_other; auto;
    intros ->; apply Hk; simpl; tauto.
Qed.

Lemma intact_self c this : intact this -> instance_self c this = Ok c.
Proof. intros (H1 & H2 & _). now apply instance_self_Ok. Qed.

(** An object all of whose keys are names that nothing inherits has its
    methods. *)
Lemma plain_keys_intact (props : object) :
  (forall k, In k (keys props) -> ~ In k inherited_names) ->
  intact props /\ lookup "$toJson" props = None.
Proof.
  intros H. unfold intact.
  repeat split; apply lookup_not_key; intros Hin; apply (H _ Hin);
    simpl; tauto.
Qed.

Section Reinstantiate.

Variable classes : class_id -> Model.
Variable container : string -> string -> option class_id.
Hypothesis Hreadable : readable classes.

Lemma assign_value_own c newFields key v st :
  assign_value classes c newFields key v st =
  match lookup key newFields with
  | Some attr => Ok (set newFields key (Attributes.set_value attr v), st)
  | None => Throw TypeError
  end.
Proof.
  unfold assign_value. now rewrite (readable_afresh _ Hreadable).
Qed.

Lemma merge_loop c fieldKeys o newFields st :
  NoDup (keys o) -> (forall k, In k (keys o) -> In k fieldKeys) ->
  keys newFields = fieldKeys ->
  exists merged,
    Lodash.forEachM (merge_callback classes c fieldKeys) o newFields st =
      Ok (merged, st) /\
    keys merged = fieldKeys /\
    forall key,
      lookup key merged =
      match lookup key o with
      | Some v =>
          option_map (fun a => Attributes.set_value a v) (lookup key newFields)
      | None => lookup key newFields
      end.
Proof.
  revert newFields st.
  induction o as [|[k v] o IH]; intros nf st Hnd Hin Hk.
  - exists nf. simpl. auto.
  - inversion Hnd; subst.
    assert (Hk' : In k (keys nf)) by (apply Hin; now left).
    destruct (lookup k nf) as [a|] eqn:Ea;
      [|apply lookup_In_keys in Hk'; contradiction].
    set (nf1 := set nf k (Attributes.set_value a v)).
    assert (Hk1 : keys nf1 = keys nf) by now apply keys_set_present.
    destruct (IH nf1 st H2 (fun k0 H0 => Hin k0 (or_intror H0)) Hk1)
      as (merged & Hm & Hkm & Hlm).
    exists merged. split; [|split; [congruence|]].
    + unfold merge_callback in *. simpl. unfold bind.
      rewrite (proj2 (includes_In (keys nf) k) Hk'). simpl.
      rewrite assign_value_own, Ea. exact Hm.
    + intros key. rewrite Hlm. simpl.
      destruct (String.eqb key k) eqn:E.
      * apply String.eqb_eq in E. subst key.
        assert (Hn : lookup k o = None).
        { destruct (lookup k o) eqn:E'; auto. exfalso. apply H1.
          apply lookup_In_keys. congruence. }
        rewrite Hn. unfold nf1. now rewrite lookup_set_same, Ea.
      * apply String.eqb_neq in E. unfold nf1.
        rewrite lookup_set_other by congruence. reflexivity.
Qed.

(** Merging an object that has exactly the declared keys replaces every
    default. *)
Lemma mergeFields_full c data st :
  truthy data = true ->
  keys (Lodash.entries data) = keys (fields (classes c)) ->
  mergeFields classes c data st =
  Ok (map (fun kd => (fst kd, Attributes.set_value (snd kd)
                                (get (Lodash.entries data) (fst kd))))
        (fields (classes c)), st).
Proof.
  intros Ht Hk. unfold mergeFields. rewrite Ht. simpl.
  assert (Hnd := readable_keys _ Hreadable c).
  destruct (merge_loop c (keys (fields (classes c))) (Lodash.entries data)
              (fields (classes c)) st)
    as (merged & Hm & Hkm & Hlm); [congruence | congruence | reflexivity |].
  unfold merge_callback in Hm. rewrite Hm. do 2 f_equal.
  apply alist_ext;
    [congruence | rewrite Hkm; unfold keys; now rewrite map_map |].
  intros key Hin.
  rewrite Hlm, (lookup_map (fun k d => Attributes.set_value d
                                         (get (Lodash.entries data) k))).
  unfold get. destruct (lookup key (Lodash.entries data)) eqn:E.
  - now destruct (lookup key (fields (classes c))).
  - exfalso. rewrite Hkm, <- Hk in Hin. apply lookup_In_keys in Hin.
    contradiction.
Qed.

(** When each field is given a value out of which the callback makes the
    property [val key], the whole walk makes the object of these
    properties. *)
Lemma forEachM_initialize_all new c (g val : string -> value)
  (flds : Fields) this st :
  NoDup (keys this ++ keys flds) ->
  intact this ->
  (forall key, In key (keys flds) -> ~ In key inherited_names) ->
  (forall key decl this,
     In (key, decl) flds -> intact this ->
     initialize_field classes container new c this
       (Attributes.set_value decl (g key)) key st =
     Ok (set this key (val key), st)) ->
  Lodash.forEachM (initialize_field classes container new c)
    (map (fun kd => (fst kd, Attributes.set_value (snd kd) (g (fst kd)))) flds)
    this st =
  Ok (this ++ map (fun kd => (fst kd, val (fst kd))) flds, st).
Proof.
  revert this. induction flds as [|[key decl] flds IH];
    intros this Hnd Hint Hpl H.
  - simpl. now rewrite app_nil_r.
  - simpl. unfold bind. rewrite H by (auto; now left).
    assert (Hk : ~ In key (keys this)).
    { intros Hin. simpl in Hnd. apply NoDup_remove_2 in Hnd. apply Hnd.
      apply in_or_app. now left. }
    assert (Hint' : intact (set this key (val key))).
    { apply intact_set; [assumption|]. apply Hpl. now left. }
    rewrite set_absent in * by assumption.
    rewrite IH.
    + now rewrite <- app_assoc.
    + unfold keys. rewrite map_app, <- app_assoc. exact Hnd.
    + exact Hint'.
    + intros. apply Hpl. now right.
    + intros. apply H; [now right | assumption].
Qed.

(** Instantiating from [data] whose own properties [o] carry exactly the
    declared keys. *)
Lemma reinstantiate n c data props st :
  truthy data = true ->
  keys (Lodash.entries data) = keys (fields (classes c)) ->
  keys props = keys (fields (classes c)) ->
  (forall key decl this,
     In (key, decl) (fields (classes c)) -> intact this ->
     initialize_field classes container (instantiate classes container n) c
       this (Attributes.set_value decl (get (Lodash.entries data) key)) key st =
     Ok (set this key (get props key), st)) ->
  instantiate classes container (S n) c data st = Ok (VInst c props, st).
Proof.
  intros Ht Hk Hp H. simpl. unfold initialize, bind.
  rewrite mergeFields_full by assumption.
  rewrite (forEachM_initialize_all _ c (get (Lodash.entries data)) (get props)).
  - simpl. unfold ret. do 3 f_equal.
    apply object_by_keys; [apply (readable_keys _ Hreadable) | assumption].
  - simpl. apply (readable_keys _ Hreadable).
  - exact intact_nil.
  - apply (readable_names _ Hreadable).
  - exact H.
Qed.

End Reinstantiate.

Lemma is_null_true v : is_null v = true -> v = VNull.
Proof. now destruct v. Qed.

Lemma index0_truthy v : truthy v = true -> exists first, index0 v = Ok first.
Proof.
  destruct v as [| | | |[|a s]|[|x l]| | |[| |[|a s]]]; simpl;
    try discriminate; eauto.
Qed.

Section ReadBack.

Variable classes : class_id -> Model.
Variable container : string -> string -> option class_id.
Hypothesis Hreadable : readable classes.

Lemma instance_of_inv n m p :
  instance_of classes container n m p ->
  exists n' props,
    n = S n' /\ p = VInst m props /\
    keys props = keys (fields (classes m)) /\
    forall key field,
      In (key, field) (fields (classes m)) ->
      holds classes container (instance_of classes container n')
        m key field (get props key).
Proof.
  destruct n as [|n']; [intros []|]. simpl.
  destruct p; try (intros []; fail). intros (-> & Hk & H). eauto 6.
Qed.

Lemma no_index_property {A} m (o : list (string * A)) :
  keys o = keys (fields (classes m)) -> lookup "0" o = None.
Proof.
  intros Hk. eapply lookup_keys_eq; [exact Hk|].
  apply (readable_index _ Hreadable).
Qed.

(** A has-one or belongs-to field given embedded data. *)
Lemma initialize_one new c this key decl w st m x first :
  In (key, decl) (fields (classes c)) ->
  Attributes.type decl = THasOne \/ Attributes.type decl = TBelongsTo ->
  target_of classes container c decl = Ok m ->
  is_null w = false -> Lodash.isNumber w = false ->
  index0 w = Ok first -> Lodash.isNumber first = false ->
  truthy w = true ->
  new m w st = Ok (x, st) ->
  intact this ->
  initialize_field classes container new c this (Attributes.set_value decl w)
    key st = Ok (set this key x, st).
Proof.
  intros Hin Hty Htg Hnull Hnum Hidx Hfst Htr Hnew Hint.
  assert (Hs := readable_static _ Hreadable _ _ _ Hin).
  rewrite initialize_field_eq, (current_afresh _ Hreadable). cbv zeta.
  rewrite value_set_value, type_set_value, Hnull.
  rewrite <- (resolveRelation_static classes container c decl w Hs) in Htg.
  rewrite <- (instance_resolveRelation_Ok classes container c this _ Hint)
    in Htg.
  destruct decl as [d own|t fk d p|t fk d p|t fk d p|t fk ok d p];
    simpl in Hty; destruct Hty as [Hty|Hty]; try discriminate Hty;
    cbn [Attributes.set_value Attributes.type] in *;
    rewrite Hnum; unfold bind, lift; rewrite Hidx; simpl; rewrite Hfst;
    rewrite Htg; simpl; rewrite Htr, Hnew; reflexivity.
Qed.

(** A has-many or has-many-by field given an array of embedded data. *)
Lemma initialize_many new c this key decl l st m xs first :
  In (key, decl) (fields (classes c)) ->
  Attributes.type decl = THasMany \/ Attributes.type decl = THasManyBy ->
  target_of classes container c decl = Ok m ->
  index0 (VArr l) = Ok first -> Lodash.isNumber first = false ->
  mapM (new m) l st = Ok (xs, st) ->
  intact this ->
  initialize_field classes container new c this
    (Attributes.set_value decl (VArr l)) key st =
  Ok (set this key (VArr xs), st).
Proof.
  intros Hin Hty Htg Hidx Hfst Hnew Hint.
  assert (Hs := readable_static _ Hreadable _ _ _ Hin).
  rewrite initialize_field_eq, (current_afresh _ Hreadable). cbv zeta.
  rewrite value_set_value, type_set_value.
  rewrite <- (resolveRelation_static classes container c decl (VArr l) Hs)
    in Htg.
  rewrite <- (instance_resolveRelation_Ok classes container c this _ Hint)
    in Htg.
  destruct decl as [d own|t fk d p|t fk d p|t fk d p|t fk ok d p];
    simpl in Hty; destruct Hty as [Hty|Hty]; try discriminate Hty;
    cbn [Attributes.set_value Attributes.type is_null Lodash.isNumber] in *;
    unfold bind, lift; rewrite Hidx; simpl; rewrite Hfst;
    rewrite Htg; simpl; rewrite Hnew; reflexivity.
Qed.

Lemma instance_not_number n m x :
  instance_of classes container n m x -> Lodash.isNumber x = false.
Proof.
  intros H. apply instance_of_inv in H as (n' & props & _ & -> & _).
  reflexivity.
Qed.

Lemma index0_instances n m l :
  Forall (instance_of classes container n m) l ->
  exists first, index0 (VArr l) = Ok first /\ Lodash.isNumber first = false.
Proof.
  intros H. destruct H as [|x l Hx _]; simpl; eauto.
  eexists. split; [reflexivity|]. eapply instance_not_number; eassumption.
Qed.

Section Level.

Variable n : nat.

(** Instantiating from an instance, and from its serialization, gives the
    instance back: assumed one level down. *)
Hypothesis again_instance :
  forall m x st,
    instance_of classes container n m x ->
    instantiate classes container n m x st = Ok (x, st).

Hypothesis again_json :
  forall m x,
    instance_of classes container n m x ->
    exists o,
      toJson classes x = Ok (VObj o) /\
      keys o = keys (fields (classes m)) /\
      forall st, instantiate classes container n m (VObj o) st = Ok (x, st).

Lemma field_again c this key decl p st :
  In (key, decl) (fields (classes c)) ->
  holds classes container (instance_of classes container n) c key decl p ->
  intact this ->
  initialize_field classes container (instantiate classes container n) c
    this (Attributes.set_value decl p) key st =
  Ok (set this key p, st).
Proof.
  intros Hin [->|H] Hint.
  { apply initialize_field_null.
    now rewrite (current_afresh _ Hreadable), value_set_value. }
  destruct (Attributes.type decl) eqn:Ety.
  - (* attribute *)
    destruct decl as [d own| | | |]; simpl in Ety; try discriminate Ety.
    simpl in H.
    destruct (is_null p) eqn:En.
    { apply is_null_true in En. subst p. apply initialize_field_null.
      now rewrite (current_afresh _ Hreadable). }
    assert (Hc : current classes c key
                   (Attributes.set_value (Attr d own) p) st = Attr p own)
      by now rewrite (current_afresh _ Hreadable).
    assert (Hp : p <> VNull) by (intros ->; discriminate).
    rewrite (initialize_field_attr_plain classes container _ c this _ key st
               p own Hc Hp (intact_self c this Hint)).
    + now rewrite H.
    + intros _ _.
      eapply (declared_not_Object_prototype classes Hreadable); eassumption.
  - destruct H as (m & Htg & Hi). pose proof Hi as Hi'.
    apply instance_of_inv in Hi' as (n' & props & _ & -> & Hk & _).
    eapply initialize_one with (first := VUndef); eauto.
    simpl. unfold get. now rewrite (no_index_property m props Hk).
  - destruct H as (m & Htg & Hi). pose proof Hi as Hi'.
    apply instance_of_inv in Hi' as (n' & props & _ & -> & Hk & _).
    eapply initialize_one with (first := VUndef); eauto.
    simpl. unfold get. now rewrite (no_index_property m props Hk).
  - destruct H as (m & l & Htg & -> & Hl).
    destruct (index0_instances _ _ _ Hl) as (first & Hidx & Hfst).
    eapply initialize_many; eauto.
    apply mapM_same. eapply Forall_impl; [|exact Hl]. auto.
  - destruct H as (m & l & Htg & -> & Hl).
    destruct (index0_instances _ _ _ Hl) as (first & Hidx & Hfst).
    eapply initialize_many; eauto.
    apply mapM_same. eapply Forall_impl; [|exact Hl]. auto.
Qed.

Lemma field_again_json c key decl props :
  In (key, decl) (fields (classes c)) ->
  holds classes container (instance_of classes container n) c key decl
    (get props key) ->
  exists w,
    emit classes props decl key = Ok w /\
    forall this st,
      intact this ->
      initialize_field classes container (instantiate classes container n) c
        this (Attributes.set_value decl w) key st =
      Ok (set this key (get props key), st).
Proof.
  intros Hin H. unfold emit. cbv zeta.
  set (p := get props key) in *.
  assert (Hsame : exists w, Ok p = Ok w /\
            forall this st,
              intact this ->
              initialize_field classes container
                (instantiate classes container n) c
                this (Attributes.set_value decl w) key st =
              Ok (set this key p, st)).
  { exists p. split; [reflexivity|]. intros. now apply field_again. }
  destruct (truthy p) eqn:Etr; [|exact Hsame]. simpl.
  destruct H as [Hnull|H]; [rewrite Hnull in Etr; discriminate|].
  destruct (Attributes.type decl) eqn:Ety; try exact Hsame.
  - destruct H as (m & Htg & Hi).
    destruct (again_json _ _ Hi) as (o & Hj & Hk & Hre).
    exists (VObj o). split; [assumption|]. intros this st Hint.
    eapply initialize_one with (first := VUndef); eauto.
    simpl. unfold get. now rewrite (no_index_property m o Hk).
  - destruct H as (m & Htg & Hi).
    destruct (again_json _ _ Hi) as (o & Hj & Hk & Hre).
    exists (VObj o). split; [assumption|]. intros this st Hint.
    eapply initialize_one with (first := VUndef); eauto.
    simpl. unfold get. now rewrite (no_index_property m o Hk).
  - destruct H as (m & l & Htg & Hp & Hl). rewrite Hp.
    destruct (rmap_Forall (toJson classes)
                (fun x y => Lodash.isNumber y = false /\
                   forall st, instantiate classes container n m y st =
                              Ok (x, st)) l) as (js & Hjs & Hall).
    { eapply Forall_impl; [|exact Hl]. intros x Hx.
      destruct (again_json _ _ Hx) as (o & Hj & Hk & Hre). eauto. }
    rewrite Hjs. simpl. exists (VArr js). split; [reflexivity|].
    intros this st Hint.
    assert (Hidx : exists first, index0 (VArr js) = Ok first /\
                                 Lodash.isNumber first = false).
    { destruct Hall as [|x y l' js' [Hy _] _]; simpl; eauto. }
    destruct Hidx as (first & Hidx & Hfst).
    eapply initialize_many; eauto.
    apply mapM_Forall2. apply Forall2_flip in Hall.
    eapply Forall2_impl; [|exact Hall].
    intros y x [_ Hxy]. exact Hxy.
Qed.

End Level.

(** Instantiating the class from one of its instances, or from the
    serialization of one, gives that instance. *)
Lemma instantiate_again n :
  forall c x,
    instance_of classes container n c x ->
    (forall st, instantiate classes container n c x st = Ok (x, st)) /\
    exists o,
      toJson classes x = Ok (VObj o) /\
      keys o = keys (fields (classes c)) /\
      forall st, instantiate classes container n c (VObj o) st = Ok (x, st).
Proof.
  induction n as [|n IH]; intros c x Hx; [destruct Hx|].
  assert (HB : forall m y st, instance_of classes container n m y ->
                 instantiate classes container n m y st = Ok (y, st))
    by (intros m y st Hy; now apply IH).
  assert (HA : forall m y, instance_of classes container n m y ->
             exists o, toJson classes y = Ok (VObj o) /\
               keys o = keys (fields (classes m)) /\
               forall st, instantiate classes container n m (VObj o) st =
                          Ok (y, st))
    by (intros m y Hy; now apply IH).
  apply instance_of_inv in Hx as (n' & props & [= <-] & -> & Hk & Hh).
  assert (Hnd := readable_keys _ Hreadable c).
  split.
  - intros st. apply reinstantiate; auto.
    intros key decl this Hin. simpl. apply field_again; auto.
  - set (w := fun (key : string) (decl : Attrs) =>
                match emit classes props decl key with
                | Ok v => v
                | _ => VUndef
                end).
    assert (Hw : forall key decl, In (key, decl) (fields (classes c)) ->
              emit classes props decl key = Ok (w key decl) /\
              forall this st,
                intact this ->
                initialize_field classes container
                  (instantiate classes container n) c this
                  (Attributes.set_value decl (w key decl)) key st =
                Ok (set this key (get props key), st)).
    { intros key decl Hin.
      destruct (field_again_json n HB HA c key decl props Hin (Hh _ _ Hin))
        as (v & Hv & Hre).
      unfold w. rewrite Hv. auto. }
    exists (map (fun kd => (fst kd, w (fst kd) (snd kd))) (fields (classes c))).
    split; [|split].
    + destruct (plain_keys_intact props) as [Hint Hj].
      { rewrite Hk. apply (readable_names _ Hreadable). }
      rewrite toJson_instance by (auto using intact_self).
      rewrite (mapValuesR_all (emit classes props) w); [reflexivity|].
      intros k a Hin. now apply Hw.
    + unfold keys. now rewrite map_map.
    + intros st. apply reinstantiate; auto.
      * simpl. unfold keys. now rewrite map_map.
      * intros key decl this Hin. simpl.
        unfold get. rewrite (lookup_map w).
        rewrite (In_lookup_NoDup _ _ _ Hnd Hin). simpl.
        now apply Hw.
Qed.

End ReadBack.

(** C5, as amended: on a program whose [fields()] build their descriptors
    afresh, declare no field twice, under the name ["0"] or under the
    name of a member that instances inherit, and no polymorphic relation,
    and whose mutators are idempotent, instantiating a class from the
    serialization of one of its instances gives an instance equal to
    it. *)
Theorem instantiate_toJson_instantiate
  classes container fuel c data st inst st' :
  readable classes ->
  instantiate classes container fuel c data st = Ok (inst, st') ->
  exists json,
    toJson classes inst = Ok json /\
    instantiate classes container fuel c json st' = Ok (inst, st').
Proof.
  intros Hr Hi.
  apply (instantiate_instance_of classes container Hr) in Hi.
  destruct (instantiate_again classes container Hr fuel c inst Hi)
    as (_ & o & Hj & _ & Hre).
  exists (VObj o). auto.
Qed.

Lemma plain_namesb_sound classes c :
  plain_namesb (fields (classes c)) = true -> plain_names classes c.
Proof.
  unfold plain_namesb, plain_names. rewrite forallb_forall.
  intros H key Hin Hbad. specialize (H key Hin).
  apply includes_In in Hbad. rewrite Hbad in H. discriminate.
Qed.

Lemma Blog_plain_names c : plain_names Blog.classes c.
Proof.
  apply plain_namesb_sound. destruct c as [|[|[|c]]]; reflexivity.
Qed.

Lemma Blog_readable : readable Blog.classes.
Proof.
  split.
  - exact Blog_builds_afresh.
  - intros [|[|[|c]]]; repeat constructor; simpl; intuition discriminate.
  - intros [|[|[|c]]]; reflexivity.
  - exact Blog_plain_names.
  - intros [|[|[|c]]] key field; simpl; intuition;
      match goal with H : (_, _) = (_, _) |- _ => injection H as <- <- end;
      reflexivity.
  - intros [|[|[|c]]] key field v; simpl; intuition;
      match goal with H : (_, _) = (_, _) |- _ => injection H as <- <- end;
      reflexivity.
Qed.

Lemma instantiate_toJson_instantiate_witness :
  exists json,
    toJson Blog.classes ada_instance = Ok json /\
    instantiate Blog.classes Blog.container 2 Blog.User json [] =
      Ok (ada_instance, []).
Proof.
  apply (instantiate_toJson_instantiate Blog.classes Blog.container
           2 Blog.User ada_with_post [] ada_instance []).
  - exact Blog_readable.
  - reflexivity.
Defined.

(** C5 as stated fails: the mutator [v => -v] is invertible (it is its
    own inverse), and [instantiate(Entry, {amount: 1})] has [amount = -1]
    while instantiating from its serialization [{amount: -1}] gives
    [amount = 1]. *)
Lemma instantiate_toJson_not_idempotent :
  (forall v, Ledger.negate (Ledger.negate v) = v) /\
  instantiate Ledger.classes Ledger.container 1 0 credit_of_1 [] =
    Ok (VInst 0 [("amount", num (-1))], []) /\
  toJson Ledger.classes (VInst 0 [("amount", num (-1))]) =
    Ok (VObj [("amount", num (-1))]) /\
  instantiate Ledger.classes Ledger.container 1 0
    (VObj [("amount", num (-1))]) [] =
    Ok (VInst 0 [("amount", num 1)], []) /\
  VInst 0 [("amount", num 1)] <> VInst 0 [("amount", num (-1))].
Proof.
  repeat split; try discriminate.
  intros [| | |[|z]| | | | |]; simpl; auto. do 2 f_equal. lia.
Qed.

(** *** Entities without relations always instantiate *)

Section AttributesOnly.

Variable classes : class_id -> Model.
Variable container : string -> string -> option class_id.

Lemma Forall_set {A} (P : A -> Prop) (o : list (string * A)) k v :
  Forall (fun kd => P (snd kd)) o -> P v ->
  Forall (fun kd => P (snd kd)) (set o k v).
Proof.
  intros Ho Hv. induction Ho as [|[k' a] o Ha Ho IH]; simpl.
  - constructor; [exact Hv | constructor].
  - destruct (String.eqb k k'); constructor; simpl; auto.
Qed.

Lemma merge_attrs_total c fieldKeys es newFields st :
  keys newFields = fieldKeys ->
  Forall (fun kd => Attributes.type (snd kd) = TAttr) newFields ->
  exists merged st',
    Lodash.forEachM (merge_callback classes c fieldKeys) es newFields st =
      Ok (merged, st') /\
    Forall (fun kd => Attributes.type (snd kd) = TAttr) merged.
Proof.
  revert newFields st. induction es as [|[k v] es IH]; intros nf st Hk Hall.
  - exists nf, st. auto.
  - simpl. unfold bind, merge_callback at 1.
    destruct (Lodash.includes fieldKeys k) eqn:E; simpl.
    + apply includes_In in E. rewrite <- Hk in E.
      unfold assign_value.
      destruct (lookup k (retained (classes c))); [now apply IH|].
      destruct (lookup k nf) as [attr|] eqn:El;
        [|apply lookup_In_keys in E; contradiction].
      apply IH.
      * rewrite <- Hk. apply keys_set_present. exact E.
      * apply (Forall_set (fun a => Attributes.type a = TAttr)); auto.
        rewrite type_set_value. apply lookup_Some_In in El.
        rewrite Forall_forall in Hall. exact (Hall _ El).
    + now apply IH.
Qed.

Lemma initialize_attrs_total new c flds this st :
  Forall (fun kd => Attributes.type (snd kd) = TAttr) flds ->
  intact this ->
  (forall key, In key (keys flds) -> ~ In key inherited_names) ->
  exists this',
    Lodash.forEachM (initialize_field classes container new c) flds this st =
    Ok (this', st).
Proof.
  intros Hall. revert this.
  induction Hall as [|[key field] flds Hf _ IH]; intros this Hint Hpl.
  - exists this. reflexivity.
  - assert (Hkey : ~ In key inherited_names) by (apply Hpl; now left).
    assert (Hrest : forall k, In k (keys flds) -> ~ In k inherited_names)
      by (intros; apply Hpl; now right).
    simpl. unfold bind. rewrite initialize_field_eq. cbv zeta.
    assert (Ht : Attributes.type (current classes c key field st) = TAttr).
    { unfold current. destruct (lookup key (retained (classes c))); auto.
      destruct (store_get st l); auto. now rewrite type_set_value. }
    destruct (is_null (Attributes.value (current classes c key field st)));
      [apply IH; auto using intact_set|].
    destruct (current classes c key field st) as [v own| | | |];
      try discriminate Ht.
    unfold lift. rewrite mutated_plain.
    + simpl. apply IH; auto using intact_set.
    + now apply intact_self.
    + intros _ _ Hk. apply Hkey. unfold inherited_names.
      apply in_or_app. now right.
Qed.

(** A class all of whose fields are attributes, none under a name that
    instances inherit, is instantiated from any payload, in any store,
    as soon as there is fuel for the one call. *)
Lemma instantiate_attributes_total n c data st :
  Forall (fun kd => Attributes.type (snd kd) = TAttr) (fields (classes c)) ->
  plain_names classes c ->
  exists this st',
    instantiate classes container (S n) c data st = Ok (VInst c this, st').
Proof.
  intros Hall Hpl. simpl. unfold initialize, bind.
  assert (Hm : exists merged st',
             mergeFields classes c data st = Ok (merged, st') /\
             Forall (fun kd => Attributes.type (snd kd) = TAttr) merged).
  { unfold mergeFields. destruct (negb (truthy data)).
    - exists (fields (classes c)), st. auto.
    - now apply (merge_attrs_total c (keys (fields (classes c)))). }
  destruct Hm as (merged & st' & Hm & Hall').
  assert (Hk := mergeFields_keys _ _ _ _ _ _ Hm). rewrite Hm.
  destruct (initialize_attrs_total (instantiate classes container n) c
              merged [] st' Hall' intact_nil) as [this ->].
  { rewrite Hk. exact Hpl. }
  exists this, st'. reflexivity.
Qed.

End AttributesOnly.

(** C4: the instance that [instantiate] returns for class [c] has a
    property for each declared field of [c] and no other; payload keys
    that name no declared field make no difference to the result; and a
    class that declares attributes only, none under a name that instances
    inherit, always gets its instance.  (No field is named [__proto__],
    which no assignment makes a property.) *)
Theorem instantiate_field_set classes container fuel c :
  ~ In "__proto__" (keys (fields (classes c))) ->
  (forall data st inst st',
     instantiate classes container fuel c data st = Ok (inst, st') ->
     exists this,
       inst = VInst c this /\
       forall k, In k (keys this) <-> In k (keys (fields (classes c)))) /\
  (forall o st,
     instantiate classes container fuel c (VObj o) st =
     instantiate classes container fuel c
       (VObj (filter (declared classes c) o)) st) /\
  (Forall (fun kd => Attributes.type (snd kd) = TAttr) (fields (classes c)) ->
   plain_names classes c ->
   fuel <> 0 ->
   forall data st,
     exists this st',
       instantiate classes container fuel c data st = Ok (VInst c this, st')).
Proof.
  intros _. split; [|split].
  - intros data st inst st' Hi.
    apply instantiate_Ok in Hi as (n & merged & st1 & this & -> & Hm & Hf & ->).
    exists this. split; [reflexivity|]. intros k.
    rewrite (forEachM_initialize_keys _ _ _ _ _ _ _ _ _ k Hf).
    rewrite (mergeFields_keys _ _ _ _ _ _ Hm). simpl. tauto.
  - intros o st. destruct fuel as [|n]; [reflexivity|].
    simpl. unfold initialize, bind.
    now rewrite mergeFields_ignores_unknown.
  - intros Hall Hpl Hfuel data st. destruct fuel as [|n]; [congruence|].
    now apply instantiate_attributes_total.
Qed.

Lemma instantiate_field_set_witness :
  (exists this,
     VInst Blog.User
       [("id", VNull); ("name", VStr "Ada"); ("posts", VNull);
        ("profile", VNull)] = VInst Blog.User this /\
     forall k, In k (keys this) <->
               In k (keys (fields (Blog.classes Blog.User)))) /\
  instantiate Blog.classes Blog.container 1 Blog.User ada_with_nickname [] =
  instantiate Blog.classes Blog.container 1 Blog.User ada [] /\
  exists this st',
    instantiate Blog.classes Blog.container 1 Blog.Profile ada_with_nickname []
    = Ok (VInst Blog.Profile this, st').
Proof.
  destruct (instantiate_field_set Blog.classes Blog.container 1 Blog.User)
    as (Hset & Hignore & _).
  { simpl. intuition discriminate. }
  destruct (instantiate_field_set Blog.classes Blog.container 1 Blog.Profile)
    as (_ & _ & Htotal).
  { simpl. intuition discriminate. }
  split; [|split].
  - apply (Hset ada_with_nickname [] _ []). reflexivity.
  - apply (Hignore [("name", VStr "Ada"); ("nickname", VStr "al")] []).
  - apply Htotal.
    + repeat constructor.
    + exact (Blog_plain_names Blog.Profile).
    + discriminate.
Defined.

(** * Further properties *)

(** ** Foreign-key repair *)

Lemma last_cons_default (w : value) ws v0 : last (w :: ws) v0 = last ws w.
Proof.
  revert w v0. induction ws as [|x ws IH]; intros w v0; [reflexivity|].
  change (last (w :: x :: ws) v0) with (last (x :: ws) v0).
  now rewrite !IH.
Qed.

Lemma settle_first_truthy v0 ws : settle v0 ws = first_truthy v0 ws.
Proof.
  revert v0. induction ws as [|w ws IH]; intros v0.
  - unfold first_truthy. simpl. now destruct (truthy v0).
  - simpl settle. unfold first_truthy. cbn [find].
    destruct (truthy v0) eqn:E.
    + now apply settle_truthy.
    + rewrite IH. unfold first_truthy. cbn [find].
      now rewrite last_cons_default.
Qed.

(** The value under every key after the repair: the first truthy one
    among the record's own value and the values of the belongs-to fields
    it carries for that key, in record order; without a truthy one, the
    value of the last such field. *)
Theorem attachForeignKeys_first_truthy classes records model id record :
  lookup id records = Some record ->
  exists record',
    lookup id (attachForeignKeys classes records model) = Some record' /\
    forall k,
      get record' k =
      first_truthy (get record k)
        (map snd (filter (feeds (fields (classes model)) k) record)).
Proof.
  intros Hl. rewrite attachForeignKeys_lookup, Hl.
  eexists. split; [reflexivity|]. intros k.
  unfold attachRecord. change (Lodash.forEach (attachForeignKey ?f)) with (attach_pass f).
  rewrite pass_get. apply settle_first_truthy.
Qed.

Lemma attachForeignKeys_first_truthy_witness :
  exists record',
    lookup "10" (attachForeignKeys Blog.classes
                   [("10", Blog.post_of_user0)] Blog.Post) = Some record' /\
    forall k,
      get record' k =
      first_truthy (get Blog.post_of_user0 k)
        (map snd (filter (feeds (fields (Blog.classes Blog.Post)) k)
                    Blog.post_of_user0)).
Proof.
  apply (attachForeignKeys_first_truthy Blog.classes
           [("10", Blog.post_of_user0)] Blog.Post "10" Blog.post_of_user0).
  reflexivity.
Defined.

Lemma pass_keys_prefix fields es newRecord :
  exists added,
    keys (attach_pass fields es newRecord) = keys newRecord ++ added /\
    forall k, In k added ->
              exists field v, In (field, v) es /\
                              belongsTo_key fields field = Some k.
Proof.
  revert newRecord. induction es as [|[f v] es IH]; intros nr.
  - exists []. split; [now rewrite app_nil_r | intros k []].
  - rewrite pass_cons, attachForeignKey_eq.
    destruct (belongsTo_key fields f) as [key|] eqn:E.
    + destruct (truthy (get nr key)).
      * destruct (IH nr) as (added & Hk & Ha). exists added. split; auto.
        intros k Hin. destruct (Ha k Hin) as (f' & v' & ? & ?).
        exists f', v'. split; [now right | assumption].
      * destruct (IH (set nr key v)) as (added & Hk & Ha).
        destruct (in_dec string_dec key (keys nr)) as [Hin|Hin].
        -- rewrite keys_set_present in Hk by assumption.
           exists added. split; auto.
           intros k Hk'. destruct (Ha k Hk') as (f' & v' & ? & ?).
           exists f', v'. split; [now right | assumption].
        -- rewrite keys_set_absent in Hk by assumption.
           exists (key :: added). split.
           ++ rewrite Hk, <- app_assoc. reflexivity.
           ++ intros k [<-|Hk'].
              ** exists f, v. split; [now left | assumption].
              ** destruct (Ha k Hk') as (f' & v' & ? & ?).
                 exists f', v'. split; [now right | assumption].
    + destruct (IH nr) as (added & Hk & Ha). exists added. split; auto.
      intros k Hin. destruct (Ha k Hin) as (f' & v' & ? & ?).
      exists f', v'. split; [now right | assumption].
Qed.

(** The repair keeps the record ids, and in each record every property
    in its place; what it adds comes after them and is a foreign key of a
    belongs-to field the record carries; and the value under a key that
    is no such foreign key is as it was.  (No foreign key of a belongs-to
    field is a name made of digits, which an object would list among the
    first wherever it is added.) *)
Theorem attachForeignKeys_frame classes records model :
  (forall field k,
     belongsTo_key (fields (classes model)) field = Some k ->
     index_like k = false) ->
  keys (attachForeignKeys classes records model) = keys records /\
  forall id record,
    lookup id records = Some record ->
    exists record' added,
      lookup id (attachForeignKeys classes records model) = Some record' /\
      keys record' = keys record ++ added /\
      (forall k, In k added -> fed (fields (classes model)) record k) /\
      (forall k, filter (feeds (fields (classes model)) k) record = [] ->
                 get record' k = get record k).
Proof.
  intros _. split.
  - unfold attachForeignKeys, Lodash.mapValues, keys. now rewrite map_map.
  - intros id record Hl. rewrite attachForeignKeys_lookup, Hl.
    destruct (pass_keys_prefix (fields (classes model)) record record)
      as (added & Hk & Ha).
    exists (attachRecord (fields (classes model)) record), added.
    split; [reflexivity|]. split; [exact Hk|]. split; [exact Ha|].
    intros k Hf. now rewrite attachRecord_get, Hf.
Qed.

Lemma attachForeignKeys_frame_witness :
  exists record' added,
    lookup "10" (attachForeignKeys Blog.classes
                   [("10", post_by_author)] Blog.Post) = Some record' /\
    keys record' = keys post_by_author ++ added /\
    (forall k, In k added ->
               fed (fields (Blog.classes Blog.Post)) post_by_author k) /\
    (forall k, filter (feeds (fields (Blog.classes Blog.Post)) k)
                 post_by_author = [] ->
               get record' k = get post_by_author k).
Proof.
  destruct (attachForeignKeys_frame Blog.classes
              [("10", post_by_author)] Blog.Post) as [_ H].
  { intros field k Hk. unfold belongsTo_key in Hk. simpl in Hk.
    repeat match type of Hk with
           | context [String.eqb field ?x] =>
               destruct (String.eqb field x); try discriminate Hk
           end.
    injection Hk as <-. reflexivity. }
  apply (H "10" post_by_author). reflexivity.
Defined.

Lemma no_belongsTo_entries fields (record : object) :
  (forall key field, In (key, field) fields ->
                     Attributes.type field <> TBelongsTo) ->
  filter (is_belongsTo fields) record = [].
Proof.
  intros H. induction record as [|[k v] record IH]; [reflexivity|].
  simpl. rewrite IH. unfold is_belongsTo, belongsTo_key. simpl.
  destruct (lookup k fields) as [a|] eqn:E; [|reflexivity].
  apply lookup_Some_In in E. specialize (H _ _ E).
  now destruct (Attributes.type a).
Qed.

(** On a model that declares no belongs-to field, the repair returns the
    record collection as it is. *)
Theorem attachForeignKeys_without_belongsTo classes records model :
  (forall key field,
     In (key, field) (fields (classes model)) ->
     Attributes.type field <> TBelongsTo) ->
  attachForeignKeys classes records model = records.
Proof.
  intros H. unfold attachForeignKeys, Lodash.mapValues.
  rewrite <- (map_id records) at 2. apply map_ext. intros [id record].
  simpl. f_equal. unfold attachRecord.
  change (Lodash.forEach (attachForeignKey ?f)) with (attach_pass f).
  rewrite pass_only_belongsTo, no_belongsTo_entries by assumption.
  reflexivity.
Qed.

Lemma attachForeignKeys_without_belongsTo_witness :
  attachForeignKeys Blog.classes
    [("1", [("id", num 1); ("name", VStr "Ada"); ("posts", VArr [num 10])])]
    Blog.User =
  [("1", [("id", num 1); ("name", VStr "Ada"); ("posts", VArr [num 10])])].
Proof.
  apply (attachForeignKeys_without_belongsTo Blog.classes).
  simpl. intros key field H.
  repeat (destruct H as [H|H]; [injection H as <- <-; discriminate|]).
  destruct H.
Defined.

(** ** Normalization *)

Lemma mapValuesR_Forall2 {A B} (f : A -> string -> result B) o out :
  Lodash.mapValuesR f o = Ok out ->
  Forall2 (fun ka kb => fst kb = fst ka /\ f (snd ka) (fst ka) = Ok (snd kb))
    o out.
Proof.
  unfold Lodash.mapValuesR. revert out.
  induction o as [|[k a] o IH]; intros out; simpl.
  - intros [= <-]. constructor.
  - intros H. apply rbind_Ok in H as [[k1 b1] [H1 H]].
    apply rbind_Ok in H1 as [b2 [H1 [= <- <-]]].
    apply rbind_Ok in H as [ys [H2 [= <-]]].
    constructor; auto.
Qed.

Lemma mapValuesR_total {A B} (f : A -> string -> result B) o :
  (forall k a, In (k, a) o -> exists b, f a k = Ok b) ->
  exists out, Lodash.mapValuesR f o = Ok out.
Proof.
  unfold Lodash.mapValuesR. induction o as [|[k a] o IH]; intros H.
  - exists []. reflexivity.
  - destruct (H k a (or_introl eq_refl)) as [b Hb].
    destruct IH as [out Hout]; [intros; apply H; now right|].
    exists ((k, b) :: out). simpl. rewrite Hb. simpl. now rewrite Hout.
Qed.

(** [normalize] returns exactly when the container knows a model for
    every bucket of the first pass; what it returns has the buckets of
    the first pass, in the same order, each with the same record ids. *)
Theorem normalize_buckets
  classes container Schema (N : Normalizr Schema) c data :
  let first_pass := Data_normalize N data (schema N c (Lodash.isArray data)) in
  ((exists out, normalize classes container N c data = Ok out) <->
   (forall entity records,
      In (entity, records) first_pass ->
      exists model, container (connection (classes c)) entity = Some model)) /\
  (forall out,
     normalize classes container N c data = Ok out ->
     Forall2 (fun b0 b => fst b = fst b0 /\ keys (snd b) = keys (snd b0))
       first_pass out).
Proof.
  intros first_pass. unfold normalize. fold first_pass. split; [split|].
  - intros [out Hn] entity records Hin.
    apply mapValuesR_Forall2 in Hn.
    clear - Hn Hin. induction Hn as [|[e rs] [e' rs'] l l' [_ Hf] _ IH].
    + destruct Hin.
    + destruct Hin as [[= -> ->]|Hin]; [|now apply IH].
      simpl in Hf. apply rbind_Ok in Hf as [model [Hrel _]].
      unfold relation in Hrel.
      destruct (container (connection (classes c)) entity) as [m|];
        [eauto | discriminate].
  - intros H. apply mapValuesR_total. intros entity records Hin.
    destruct (H _ _ Hin) as [model Hm]. unfold relation. rewrite Hm. simpl.
    eauto.
  - intros out Hn. apply mapValuesR_Forall2 in Hn.
    eapply Forall2_impl; [|exact Hn].
    intros [e rs] [e' rs'] [He Hf]. simpl in *. split; [assumption|].
    apply rbind_Ok in Hf as [model [_ [= <-]]].
    unfold attachForeignKeys, Lodash.mapValues, keys. now rewrite map_map.
Qed.

Lemma normalize_buckets_witness :
  exists out,
    normalize Blog.classes Blog.container (answering Blog.post_first_pass)
      Blog.Post (VObj Blog.post) = Ok out.
Proof.
  apply (normalize_buckets Blog.classes Blog.container _
           (answering Blog.post_first_pass) Blog.Post (VObj Blog.post)).
  simpl. intros entity records [[= <- <-]|[[= <- <-]|[]]]; eexists; reflexivity.
Defined.

(** ** The merge step *)

Lemma same_but_value_keys fields newFields :
  Forall2 same_but_value fields newFields -> keys newFields = keys fields.
Proof.
  induction 1 as [|kd kf l l' [Hk _] _ IH]; [reflexivity|].
  simpl. now rewrite Hk, IH.
Qed.

Lemma same_but_value_refl fields : Forall2 same_but_value fields fields.
Proof.
  induction fields as [|[k d] fields IH]; constructor; auto.
  split; [reflexivity|]. exists (Attributes.value d). simpl.
  now rewrite set_value_value.
Qed.

Lemma same_but_value_set fields newFields key attr v :
  Forall2 same_but_value fields newFields ->
  lookup key newFields = Some attr ->
  Forall2 same_but_value fields
    (set newFields key (Attributes.set_value attr v)).
Proof.
  induction 1 as [|[k d] [k' a] l l' [Hk [w Hw]] Hrest IH]; intros Hl;
    simpl in *.
  - discriminate.
  - subst k'. destruct (String.eqb key k) eqn:E.
    + injection Hl as <-. constructor; [|exact Hrest].
      split; [reflexivity|]. exists v. simpl. rewrite Hw.
      apply set_value_twice.
    + constructor; [|now apply IH]. split; [reflexivity|]. eauto.
Qed.

Lemma merge_only_values classes c es newFields st :
  Forall2 same_but_value (fields (classes c)) newFields ->
  exists merged st',
    Lodash.forEachM (merge_callback classes c (keys (fields (classes c)))) es
      newFields st = Ok (merged, st') /\
    Forall2 same_but_value (fields (classes c)) merged.
Proof.
  revert newFields st. induction es as [|[k v] es IH]; intros nf st Hnf.
  - exists nf, st. auto.
  - simpl. unfold bind, merge_callback at 1.
    destruct (Lodash.includes (keys (fields (classes c))) k) eqn:E; simpl;
      [|now apply IH].
    apply includes_In in E. rewrite <- (same_but_value_keys _ _ Hnf) in E.
    unfold assign_value.
    destruct (lookup k (retained (classes c))); [now apply IH|].
    destruct (lookup k nf) as [attr|] eqn:El;
      [|apply lookup_In_keys in E; contradiction].
    apply IH. now apply same_but_value_set.
Qed.

(** [$mergeFields] always returns, whatever the payload is; the field map
    it returns has the declared names in the declared order, and each
    descriptor in it is the declared one up to its [value]. *)
Theorem mergeFields_only_values classes c data st :
  exists merged st',
    mergeFields classes c data st = Ok (merged, st') /\
    keys merged = keys (fields (classes c)) /\
    Forall2 same_but_value (fields (classes c)) merged.
Proof.
  assert (H : exists merged st',
             mergeFields classes c data st = Ok (merged, st') /\
             Forall2 same_but_value (fields (classes c)) merged).
  { unfold mergeFields. destruct (negb (truthy data)).
    - exists (fields (classes c)), st. split; [reflexivity|].
      apply same_but_value_refl.
    - apply (merge_only_values classes c). apply same_but_value_refl. }
  destruct H as (merged & st' & Hm & Hs).
  exists merged, st'. split; [assumption|]. split; [|assumption].
  now apply same_but_value_keys.
Qed.

Lemma lookup_filter_declared {A} (ks : list string) (o : list (string * A)) k :
  Lodash.includes ks k = true ->
  lookup k (filter (fun kv => Lodash.includes ks (fst kv)) o) = lookup k o.
Proof.
  intros Hk. induction o as [|[k' a] o IH]; [reflexivity|]. simpl.
  destruct (Lodash.includes ks k') eqn:E; simpl.
  - now rewrite IH.
  - destruct (String.eqb k k') eqn:E'; [|exact IH].
    apply String.eqb_eq in E'. subst. congruence.
Qed.

Lemma NoDup_keys_filter {A} (p : string * A -> bool) (o : list (string * A)) :
  NoDup (keys o) -> NoDup (keys (filter p o)).
Proof.
  induction o as [|[k a] o IH]; simpl; intros H; [constructor|].
  inversion H; subst. destruct (p (k, a)); simpl; auto.
  constructor; auto. intros Hin. apply H2.
  unfold keys in *. apply in_map_iff in Hin as [[k' a'] [Hk Hin]].
  apply filter_In in Hin as [Hin _]. simpl in Hk. subst.
  change k with (fst (k, a')). now apply in_map.
Qed.

Lemma In_keys_filter {A} (p : string * A -> bool) (o : list (string * A)) k :
  In k (keys (filter p o)) -> exists a, In (k, a) o /\ p (k, a) = true.
Proof.
  unfold keys. intros Hin. apply in_map_iff in Hin as [[k' a] [Hk Hin]].
  simpl in Hk. subst. apply filter_In in Hin. eauto.
Qed.

Lemma merge_loop_own classes c fieldKeys o newFields st :
  retained (classes c) = [] ->
  NoDup (keys o) -> (forall k, In k (keys o) -> In k fieldKeys) ->
  keys newFields = fieldKeys ->
  exists merged,
    Lodash.forEachM (merge_callback classes c fieldKeys) o newFields st =
      Ok (merged, st) /\
    keys merged = fieldKeys /\
    forall key,
      lookup key merged =
      match lookup key o with
      | Some v =>
          option_map (fun a => Attributes.set_value a v) (lookup key newFields)
      | None => lookup key newFields
      end.
Proof.
  intros Hown. revert newFields st.
  induction o as [|[k v] o IH]; intros nf st Hnd Hin Hk.
  - exists nf. simpl. auto.
  - inversion Hnd; subst.
    assert (Hk' : In k (keys nf)) by (apply Hin; now left).
    destruct (lookup k nf) as [a|] eqn:Ea;
      [|apply lookup_In_keys in Hk'; contradiction].
    set (nf1 := set nf k (Attributes.set_value a v)).
    assert (Hk1 : keys nf1 = keys nf) by now apply keys_set_present.
    destruct (IH nf1 st H2 (fun k0 H0 => Hin k0 (or_intror H0)) Hk1)
      as (merged & Hm & Hkm & Hlm).
    exists merged. split; [|split; [congruence|]].
    + simpl. unfold bind, merge_callback at 1.
      rewrite (proj2 (includes_In (keys nf) k) Hk'). simpl.
      unfold assign_value. rewrite Hown. simpl. rewrite Ea. exact Hm.
    + intros key. rewrite Hlm. simpl.
      destruct (String.eqb key k) eqn:E.
      * apply String.eqb_eq in E. subst key.
        assert (Hn : lookup k o = None).
        { destruct (lookup k o) eqn:E'; auto. exfalso. apply H1.
          apply lookup_In_keys. congruence. }
        rewrite Hn. unfold nf1. now rewrite lookup_set_same, Ea.
      * apply String.eqb_neq in E. unfold nf1.
        rewrite lookup_set_other by congruence. reflexivity.
Qed.

Lemma merged_with_nil fields : merged_with fields [] = fields.
Proof.
  unfold merged_with. rewrite <- (map_id fields) at 2.
  apply map_ext. now intros [k d].
Qed.

Lemma keys_merged_with fields o : keys (merged_with fields o) = keys fields.
Proof. unfold merged_with, keys. now rewrite map_map. Qed.

Lemma falsy_entries data : truthy data = false -> Lodash.entries data = [].
Proof. destruct data; simpl; congruence. Qed.

Lemma mergeFields_merged_with classes c data st :
  retained (classes c) = [] ->
  NoDup (keys (fields (classes c))) ->
  NoDup (keys (Lodash.entries data)) ->
  mergeFields classes c data st =
  Ok (merged_with (fields (classes c)) (Lodash.entries data), st).
Proof.
  intros Hown Hnd Hno. unfold mergeFields.
  destruct (truthy data) eqn:Et; simpl.
  2:{ rewrite (falsy_entries _ Et), merged_with_nil. reflexivity. }
  change (fun (newFields : Fields) (value : value) (key : string) =>
            if negb (Lodash.includes (keys (fields (classes c))) key)
            then ret newFields
            else assign_value classes c newFields key value)
    with (merge_callback classes c (keys (fields (classes c)))).
  unfold merge_callback. rewrite forEachM_merge_filter.
  set (o := Lodash.entries data) in *.
  set (o' := filter (fun kv => Lodash.includes (keys (fields (classes c)))
                                 (fst kv)) o).
  destruct (merge_loop_own classes c (keys (fields (classes c))) o'
              (fields (classes c)) st Hown)
    as (merged & Hm & Hkm & Hlm).
  - now apply NoDup_keys_filter.
  - intros k Hin. apply In_keys_filter in Hin as (a & _ & Hp).
    now apply includes_In in Hp.
  - reflexivity.
  - unfold merge_callback in Hm. rewrite Hm. do 2 f_equal.
    apply alist_ext; [congruence | now rewrite keys_merged_with |].
    intros key Hin. rewrite Hlm. unfold merged_with.
    rewrite (lookup_map (fun k d => match lookup k o with
                                    | Some v => Attributes.set_value d v
                                    | None => d
                                    end)).
    unfold o'. rewrite lookup_filter_declared
      by (apply includes_In; congruence).
    destruct (lookup key o); destruct (lookup key (fields (classes c)));
      reflexivity.
Qed.

(** On a class that retains no descriptor, [$mergeFields] leaves the
    store alone and returns the declared descriptors, each with the
    payload's own property of its name as value when the payload has one
    and with its default otherwise; payload keys without declared field
    leave no trace. *)
Theorem mergeFields_own classes c data st :
  retained (classes c) = [] ->
  NoDup (keys (fields (classes c))) ->
  NoDup (keys (Lodash.entries data)) ->
  exists merged,
    mergeFields classes c data st = Ok (merged, st) /\
    keys merged = keys (fields (classes c)) /\
    forall key,
      lookup key merged =
      match lookup key (fields (classes c)) with
      | Some decl =>
          Some match lookup key (Lodash.entries data) with
               | Some v => Attributes.set_value decl v
               | None => decl
               end
      | None => None
      end.
Proof.
  intros Hown Hnd Hno.
  exists (merged_with (fields (classes c)) (Lodash.entries data)).
  split; [now apply mergeFields_merged_with|].
  split; [apply keys_merged_with|].
  intros key. unfold merged_with.
  rewrite (lookup_map (fun k d => match lookup k (Lodash.entries data) with
                                  | Some v => Attributes.set_value d v
                                  | None => d
                                  end)).
  now destruct (lookup key (fields (classes c))).
Qed.

Lemma mergeFields_own_witness :
  exists merged,
    mergeFields Blog.classes Blog.User ada_with_nickname [] = Ok (merged, []) /\
    keys merged = keys (fields (Blog.classes Blog.User)) /\
    forall key,
      lookup key merged =
      match lookup key (fields (Blog.classes Blog.User)) with
      | Some decl =>
          Some match lookup key (Lodash.entries ada_with_nickname) with
               | Some v => Attributes.set_value decl v
               | None => decl
               end
      | None => None
      end.
Proof.
  apply (mergeFields_own Blog.classes Blog.User ada_with_nickname []).
  - reflexivity.
  - exact Blog_User_keys.
  - repeat constructor; simpl; intuition discriminate.
Defined.

(** ** Instantiation: flat payloads and defaults *)

Lemma current_own classes c key field st :
  retained (classes c) = [] -> current classes c key field st = field.
Proof. intros H. unfold current. now rewrite H. Qed.

Lemma forEachM_initialize_each classes container new c
  (val : string -> Attrs -> value) (flds : Fields) this st :
  NoDup (keys this ++ keys flds) ->
  intact this ->
  (forall key, In key (keys flds) -> ~ In key inherited_names) ->
  (forall key field this,
     In (key, field) flds -> intact this ->
     initialize_field classes container new c this field key st =
     Ok (set this key (val key field), st)) ->
  Lodash.forEachM (initialize_field classes container new c) flds this st =
  Ok (this ++ map (fun kd => (fst kd, val (fst kd) (snd kd))) flds, st).
Proof.
  revert this. induction flds as [|[key field] flds IH];
    intros this Hnd Hint Hpl H.
  - simpl. now rewrite app_nil_r.
  - simpl. unfold bind. rewrite H by (auto; now left).
    assert (Hk : ~ In key (keys this)).
    { intros Hin. simpl in Hnd. apply NoDup_remove_2 in Hnd. apply Hnd.
      apply in_or_app. now left. }
    assert (Hint' : intact (set this key (val key field))).
    { apply intact_set; [assumption|]. apply Hpl. now left. }
    rewrite set_absent in * by assumption.
    rewrite IH.
    + now rewrite <- app_assoc.
    + unfold keys. rewrite map_app, <- app_assoc. exact Hnd.
    + exact Hint'.
    + intros. apply Hpl. now right.
    + intros. apply H; [now right | assumption].
Qed.

Lemma initialize_field_plain classes container new c this field key st :
  retained (classes c) = [] ->
  (Attributes.isRelation field = true -> Attributes.value field = VNull) ->
  intact this -> ~ In key inherited_names ->
  initialize_field classes container new c this field key st =
  Ok (set this key (plain_property classes c key field), st).
Proof.
  intros Hown Hrel Hint Hkey.
  rewrite initialize_field_eq, current_own by assumption.
  cbv zeta. unfold plain_property.
  destruct (is_null (Attributes.value field)) eqn:En; [reflexivity|].
  destruct field as [v m|t fk v p|t fk v p|t fk v p|t fk ok v p];
    [|simpl in Hrel, En; rewrite (Hrel eq_refl) in En; discriminate ..].
  unfold bind, lift. rewrite mutated_plain; [reflexivity | |].
  - now apply intact_self.
  - intros _ _ Hk. apply Hkey. unfold inherited_names.
    apply in_or_app. now right.
Qed.

(** On a class that retains no descriptor and declares no field under a
    name that instances inherit, a payload under which every relation is
    left at [null] is instantiated with one unit of fuel and without
    looking up any model: each property is [null] where the merged value
    is, and the mutated merged value at the attributes. *)
Theorem instantiate_flat classes container n c data st :
  retained (classes c) = [] ->
  NoDup (keys (fields (classes c))) ->
  plain_names classes c ->
  NoDup (keys (Lodash.entries data)) ->
  (forall key field,
     In (key, field) (merged_with (fields (classes c)) (Lodash.entries data)) ->
     Attributes.isRelation field = true -> Attributes.value field = VNull) ->
  instantiate classes container (S n) c data st =
  Ok (VInst c
        (map (fun kd => (fst kd, plain_property classes c (fst kd) (snd kd)))
           (merged_with (fields (classes c)) (Lodash.entries data))), st).
Proof.
  intros Hown Hnd Hpl Hno Hflat. simpl. unfold initialize, bind.
  rewrite mergeFields_merged_with by assumption.
  rewrite (forEachM_initialize_each classes container _ c
             (plain_property classes c)).
  - reflexivity.
  - simpl. now rewrite keys_merged_with.
  - exact intact_nil.
  - rewrite keys_merged_with. exact Hpl.
  - intros key field this Hin Hint. apply initialize_field_plain; auto.
    + now apply (Hflat key).
    + apply Hpl. rewrite <- (keys_merged_with _ (Lodash.entries data)).
      change key with (fst (key, field)). now apply in_map.
Qed.

Lemma instantiate_flat_witness :
  instantiate Blog.classes Blog.container 1 Blog.User ada_with_nickname [] =
  Ok (VInst Blog.User
        (map (fun kd => (fst kd,
                         plain_property Blog.classes Blog.User (fst kd) (snd kd)))
           (merged_with (fields (Blog.classes Blog.User))
              (Lodash.entries ada_with_nickname))), []).
Proof.
  apply (instantiate_flat Blog.classes Blog.container 0 Blog.User
           ada_with_nickname []).
  - reflexivity.
  - exact Blog_User_keys.
  - exact (Blog_plain_names Blog.User).
  - repeat constructor; simpl; intuition discriminate.
  - intros key field H Hr. vm_compute in H.
    repeat (destruct H as [H|H];
            [injection H as <- <-; (discriminate Hr || reflexivity)|]).
    destruct H.
Defined.

(** A payload without own properties ([undefined], [null], a boolean, a
    number, a string, an array) gives the instance of the defaults: on a
    class that retains no descriptor, declares no field under a name that
    instances inherit and declares its relations through the factories,
    every attribute holds its mutated default and every relation [null],
    whatever the container knows. *)
Theorem instantiate_defaults classes container n c data st :
  retained (classes c) = [] ->
  NoDup (keys (fields (classes c))) ->
  plain_names classes c ->
  factory_relations classes c ->
  Lodash.entries data = [] ->
  instantiate classes container (S n) c data st =
  Ok (VInst c
        (map (fun kd => (fst kd, plain_property classes c (fst kd) (snd kd)))
           (fields (classes c))), st).
Proof.
  intros Hown Hnd Hpl Hfac He. simpl. unfold initialize, bind.
  rewrite mergeFields_merged_with, He, merged_with_nil;
    [| assumption | assumption | rewrite He; constructor].
  rewrite (forEachM_initialize_each classes container _ c
             (plain_property classes c)).
  - reflexivity.
  - exact Hnd.
  - exact intact_nil.
  - exact Hpl.
  - intros key field this Hin Hint. apply initialize_field_plain; auto.
    + now apply (Hfac key).
    + apply Hpl. change key with (fst (key, field)). now apply in_map.
Qed.

Lemma Blog_User_factory : factory_relations Blog.classes Blog.User.
Proof.
  intros key field H Hr. simpl in H.
  repeat (destruct H as [H|H];
          [injection H as <- <-; (discriminate Hr || reflexivity)|]).
  destruct H.
Qed.

Lemma instantiate_defaults_witness :
  instantiate Blog.classes Blog.container 1 Blog.User two_numbers [] =
  Ok (VInst Blog.User
        (map (fun kd => (fst kd,
                         plain_property Blog.classes Blog.User (fst kd) (snd kd)))
           (fields (Blog.classes Blog.User))), []).
Proof.
  apply (instantiate_defaults Blog.classes Blog.container 0 Blog.User
           two_numbers []).
  - reflexivity.
  - exact Blog_User_keys.
  - exact (Blog_plain_names Blog.User).
  - exact Blog_User_factory.
  - reflexivity.
Defined.

(** ** Instantiation: payloads that make it throw *)

Lemma instantiate_fails_at classes container fuel c data st key field :
  retained (classes c) = [] ->
  NoDup (keys (fields (classes c))) ->
  NoDup (keys (Lodash.entries data)) ->
  lookup key (merged_with (fields (classes c)) (Lodash.entries data)) =
    Some field ->
  (forall new this0 st0 this1 st1,
     initialize_field classes container new c this0 field key st0 <>
     Ok (this1, st1)) ->
  forall inst st', instantiate classes container fuel c data st <> Ok (inst, st').
Proof.
  intros Hown Hnd Hno Hl Hfail inst st' Hi.
  destruct (instantiate_assigns classes container _ _ _ _ _ _ _ _ _ _
              Hi Hnd (mergeFields_merged_with classes c data st Hown Hnd Hno) Hl)
    as (n & this & this0 & st0 & this1 & st2 & _ & _ & H1 & _).
  exact (Hfail _ _ _ _ _ H1).
Qed.

Lemma initialize_field_undefined classes container new c this field key st :
  Attributes.isRelation (current classes c key field st) = true ->
  Attributes.value (current classes c key field st) = VUndef ->
  initialize_field classes container new c this field key st = Throw TypeError.
Proof.
  intros Hrel Hv. rewrite initialize_field_eq. cbv zeta. rewrite Hv.
  destruct (current classes c key field st); try discriminate Hrel;
    reflexivity.
Qed.

(** A relation whose merged value is [undefined] makes [$initialize]
    throw a [TypeError] (at [field.value[0]]); a payload that gives a
    relation the own property [undefined] is never instantiated. *)
Theorem instantiate_undefined_relation classes container c key field :
  (forall new this st,
     Attributes.isRelation (current classes c key field st) = true ->
     Attributes.value (current classes c key field st) = VUndef ->
     initialize_field classes container new c this field key st =
       Throw TypeError) /\
  (forall fuel data st,
     retained (classes c) = [] ->
     NoDup (keys (fields (classes c))) ->
     NoDup (keys (Lodash.entries data)) ->
     lookup key (merged_with (fields (classes c)) (Lodash.entries data)) =
       Some field ->
     Attributes.isRelation field = true ->
     Attributes.value field = VUndef ->
     forall inst st',
       instantiate classes container fuel c data st <> Ok (inst, st')).
Proof.
  split.
  - intros new this st. apply initialize_field_undefined.
  - intros fuel data st Hown Hnd Hno Hl Hrel Hv.
    eapply instantiate_fails_at; eauto.
    intros new this0 st0 this1 st1.
    rewrite initialize_field_undefined;
      [discriminate | |]; now rewrite current_own.
Qed.

Lemma instantiate_undefined_relation_witness :
  ~ exists inst st',
      instantiate Blog.classes Blog.container 3 Blog.User
        user_with_undefined_profile [] = Ok (inst, st').
Proof.
  intros (inst & st' & E). revert E.
  destruct (instantiate_undefined_relation Blog.classes Blog.container
              Blog.User "profile" (HasOne (inr "Profile") "userId" VUndef false))
    as [_ H].
  apply (H 3 user_with_undefined_profile []).
  - reflexivity.
  - exact Blog_User_keys.
  - repeat constructor; simpl; intuition discriminate.
  - reflexivity.
  - reflexivity.
  - reflexivity.
Defined.

Lemma resolveRelation_throws_or_returns classes container c attr :
  resolveRelation classes container c attr <> OutOfFuel.
Proof.
  unfold resolveRelation, relation.
  destruct (polymorphic attr).
  - destruct (get_type (Attributes.value attr)) as [name| |] eqn:E;
      simpl; try discriminate.
    + destruct name; try discriminate.
      destruct (container (connection (classes c)) s); discriminate.
    + destruct (Attributes.value attr); discriminate.
  - destruct (model_of attr) as [[m|name]|]; try discriminate.
    destruct (container (connection (classes c)) name); discriminate.
Qed.

Lemma initialize_field_not_array classes container new c this field key st :
  let field' := current classes c key field st in
  let v := Attributes.value field' in
  Attributes.type field' = THasMany \/ Attributes.type field' = THasManyBy ->
  truthy v = true -> Lodash.isArray v = false -> Lodash.isNumber v = false ->
  (forall first, index0 v = Ok first -> Lodash.isNumber first = false) ->
  exists e,
    initialize_field classes container new c this field key st = Throw e.
Proof.
  intros field' v Hty Htr Harr Hnum Hfirst.
  rewrite initialize_field_eq. fold field'. cbv zeta. fold v.
  assert (Hnull : is_null v = false) by (destruct v; auto; discriminate).
  rewrite Hnull.
  destruct (index0_truthy v Htr) as [first Hidx]. specialize (Hfirst _ Hidx).
  assert (Hres := instance_resolveRelation_runs classes container c this field'
                    (resolveRelation_throws_or_returns classes container c
                       field')).
  destruct field' as [d m|t fk d p|t fk d p|t fk d p|t fk ok d p];
    simpl in Hty; destruct Hty as [Hty|Hty]; try discriminate Hty;
    cbn [Attributes.type]; cbv beta iota;
    rewrite Hnum; unfold bind, lift; rewrite Hidx; simpl; rewrite Hfirst;
    match goal with
    | |- context [instance_resolveRelation ?a ?b ?c ?t ?f] =>
        destruct (instance_resolveRelation a b c t f) as [m'|e|]; simpl;
        [|eauto|congruence]
    end;
    rewrite Htr; destruct v; try discriminate Harr;
    exists TypeError; reflexivity.
Qed.

(** A has-many or has-many-by relation whose merged value is truthy but
    no array (a single embedded object, a string, [true]) and no number
    placeholder makes [$initialize] throw; a payload that gives it such a
    value is never instantiated. *)
Theorem instantiate_not_array classes container c key field :
  (forall new this st,
     let field' := current classes c key field st in
     let v := Attributes.value field' in
     Attributes.type field' = THasMany \/ Attributes.type field' = THasManyBy ->
     truthy v = true -> Lodash.isArray v = false -> Lodash.isNumber v = false ->
     (forall first, index0 v = Ok first -> Lodash.isNumber first = false) ->
     exists e,
       initialize_field classes container new c this field key st = Throw e) /\
  (forall fuel data st,
     retained (classes c) = [] ->
     NoDup (keys (fields (classes c))) ->
     NoDup (keys (Lodash.entries data)) ->
     lookup key (merged_with (fields (classes c)) (Lodash.entries data)) =
       Some field ->
     Attributes.type field = THasMany \/ Attributes.type field = THasManyBy ->
     truthy (Attributes.value field) = true ->
     Lodash.isArray (Attributes.value field) = false ->
     Lodash.isNumber (Attributes.value field) = false ->
     (forall first, index0 (Attributes.value field) = Ok first ->
                    Lodash.isNumber first = false) ->
     forall inst st',
       instantiate classes container fuel c data st <> Ok (inst, st')).
Proof.
  split.
  - intros new this st. apply initialize_field_not_array.
  - intros fuel data st Hown Hnd Hno Hl Hty Htr Harr Hnum Hfirst.
    eapply instantiate_fails_at; eauto.
    intros new this0 st0 this1 st1.
    destruct (initialize_field_not_array classes container new c this0
                field key st0) as [e He];
      try (rewrite current_own by assumption; assumption).
    rewrite He. discriminate.
Qed.

Lemma instantiate_not_array_witness :
  ~ exists inst st',
      instantiate Blog.classes Blog.container 3 Blog.User
        user_with_single_post [] = Ok (inst, st').
Proof.
  intros (inst & st' & E). revert E.
  destruct (instantiate_not_array Blog.classes Blog.container Blog.User "posts"
              (HasMany (inl Blog.Post) "userId" (VObj [("id", num 10)]) false))
    as [_ H].
  apply (H 3 user_with_single_post []).
  - reflexivity.
  - exact Blog_User_keys.
  - repeat constructor; simpl; intuition discriminate.
  - reflexivity.
  - left; reflexivity.
  - reflexivity.
  - reflexivity.
  - reflexivity.
  - intros first [= <-]. reflexivity.
Defined.

(** ** Instantiation: termination *)

Lemma list_max_In (f : value -> nat) l x :
  In x l -> f x <= list_max (map f l).
Proof.
  induction l as [|y l IH]; simpl; [tauto|].
  intros [->|H]; [lia|]. specialize (IH H). lia.
Qed.

Lemma depth_element l x : In x l -> depth x < depth (VArr l).
Proof. intros H. simpl. apply list_max_In with (f := depth) in H. lia. Qed.

Lemma depth_entry data k v :
  In (k, v) (Lodash.entries data) -> depth v < depth data.
Proof.
  assert (H : forall o : object, In (k, v) o ->
                depth v <= list_max (map (fun kv => depth (snd kv)) o)).
  { induction o as [|[k' v'] o IH]; simpl; [tauto|].
    intros [[= -> ->]|Hin]; [lia|]. specialize (IH Hin). lia. }
  destruct data; simpl; try tauto; intros Hin; apply H in Hin; lia.
Qed.

Lemma forEachM_runs {A S} (f : S -> A -> string -> M S) o s st :
  (forall k a s st, In (k, a) o -> f s a k st <> OutOfFuel) ->
  Lodash.forEachM f o s st <> OutOfFuel.
Proof.
  revert s st. induction o as [|[k a] o IH]; intros s st H; [discriminate|].
  simpl. unfold bind.
  destruct (f s a k st) as [[s1 st1]|e|] eqn:E; [|discriminate|].
  - apply IH. intros. apply H. now right.
  - exfalso. eapply H; [now left | eassumption].
Qed.

Lemma mapM_runs {A B} (f : A -> M B) l st :
  (forall x st, In x l -> f x st <> OutOfFuel) -> mapM f l st <> OutOfFuel.
Proof.
  revert st. induction l as [|x l IH]; intros st H; [discriminate|].
  simpl. unfold bind.
  destruct (f x st) as [[y st1]|e|] eqn:E; [|discriminate|].
  - destruct (mapM f l st1) as [[ys st2]|e|] eqn:E'; try discriminate.
    exfalso. eapply IH; [|eassumption]. intros. apply H. now right.
  - exfalso. eapply H; [now left | eassumption].
Qed.

Lemma merge_shallow classes c fieldKeys n es newFields st merged st' :
  (forall k v, In (k, v) es -> depth v < n) ->
  Forall (fun kf => shallow_relation n (snd kf)) newFields ->
  Lodash.forEachM (merge_callback classes c fieldKeys) es newFields st =
    Ok (merged, st') ->
  Forall (fun kf => shallow_relation n (snd kf)) merged.
Proof.
  revert newFields st. induction es as [|[k v] es IH]; intros nf st Hes Hnf H.
  - simpl in H. now monad_inv H.
  - apply forEachM_cons_Ok in H as (nf1 & st1 & H1 & H).
    eapply IH; [intros; eapply Hes; right; eassumption | | exact H].
    unfold merge_callback in H1.
    destruct (negb (Lodash.includes fieldKeys k)); [now monad_inv H1|].
    unfold assign_value in H1.
    destruct (lookup k (retained (classes c))); [now monad_inv H1|].
    destruct (lookup k nf) as [attr|]; monad_inv H1.
    apply (Forall_set (shallow_relation n)); [assumption|].
    intros _. right. rewrite value_set_value. apply (Hes k). now left.
Qed.

Lemma mergeFields_shallow classes c data st merged st' :
  factory_relations classes c ->
  mergeFields classes c data st = Ok (merged, st') ->
  Forall (fun kf => shallow_relation (depth data) (snd kf)) merged.
Proof.
  intros Hfac.
  assert (H0 : Forall (fun kf => shallow_relation (depth data) (snd kf))
                 (fields (classes c))).
  { apply Forall_forall. intros [k d] Hin Hrel. left. eapply Hfac; eauto. }
  unfold mergeFields. destruct (negb (truthy data)).
  - intros H. now monad_inv H.
  - apply (merge_shallow classes c (keys (fields (classes c)))); auto.
    intros k v. apply depth_entry.
Qed.

Lemma mergeFields_runs classes c data st :
  mergeFields classes c data st <> OutOfFuel.
Proof.
  unfold mergeFields. destruct (negb (truthy data)); [discriminate|].
  apply forEachM_runs. intros k v nf st' _.
  destruct (negb (Lodash.includes (keys (fields (classes c))) k));
    [discriminate|].
  unfold assign_value.
  destruct (lookup k (retained (classes c))); [discriminate|].
  destruct (lookup k nf); discriminate.
Qed.

Lemma initialize_field_runs classes container new n c this field key st :
  retained (classes c) = [] ->
  shallow_relation n field ->
  (forall m v st, depth v < n -> new m v st <> OutOfFuel) ->
  initialize_field classes container new c this field key st <> OutOfFuel.
Proof.
  intros Hown Hsh Hnew. rewrite initialize_field_eq, current_own by assumption.
  cbv zeta.
  destruct (is_null (Attributes.value field)) eqn:En; [discriminate|].
  assert (Hres := instance_resolveRelation_runs classes container c this field
                    (resolveRelation_throws_or_returns classes container c
                       field)).
  destruct field as [d m|t fk d p|t fk d p|t fk d p|t fk ok d p];
    [unfold bind, lift;
     destruct (mutated classes c this key m (Attributes.value (Attr d m)))
       eqn:Em; try discriminate;
     now apply mutated_runs in Em| | | |];
    (destruct (Hsh eq_refl) as [Hd|Hd];
     [simpl in Hd, En; rewrite Hd in En; discriminate|]);
    simpl in Hd |- *;
    (destruct (Lodash.isNumber d); [discriminate|]);
    unfold bind, lift;
    (destruct (index0 d) as [d0| |] eqn:Ei; simpl;
     [|discriminate|destruct d as [| | | |[|a s]|[|x l]| | |[| |[|a s]]]; discriminate Ei]);
    (destruct (Lodash.isNumber d0); [discriminate|]);
    match goal with
    | |- context [instance_resolveRelation ?a ?b ?c ?t ?f] =>
        destruct (instance_resolveRelation a b c t f) as [m'|e|]; simpl;
        [|discriminate|congruence]
    end;
    (destruct (truthy d); [|discriminate]).
  1, 2: destruct (new m' d st) as [[x st1]| |] eqn:E; try discriminate;
          exfalso; eapply Hnew; eassumption.
  all: destruct d as [| | | | |l| | |]; try discriminate;
    destruct (mapM (new m') l st) as [[xs st1]| |] eqn:E; try discriminate;
    exfalso; eapply mapM_runs; [|exact E];
    intros x st2 Hin; apply Hnew;
    apply depth_element in Hin; lia.
Qed.

(** Where every [fields()] builds its descriptors afresh and relations
    are declared through the factories, instantiation recurses into the
    payload only: with more fuel than the payload is deep it returns or
    throws, it does not run on. *)
Theorem instantiate_terminates classes container fuel c data st :
  builds_afresh classes ->
  (forall c, factory_relations classes c) ->
  depth data < fuel ->
  instantiate classes container fuel c data st <> OutOfFuel.
Proof.
  intros Hafresh Hfac. revert c data st.
  induction fuel as [|n IH]; intros c data st Hd; [lia|].
  simpl. unfold initialize, bind.
  destruct (mergeFields classes c data st) as [[merged st1]|e|] eqn:Em;
    [|discriminate|now apply mergeFields_runs in Em].
  apply mergeFields_shallow in Em; [|apply Hfac].
  match goal with
  | |- context [Lodash.forEachM ?f ?o ?s ?st] =>
      destruct (Lodash.forEachM f o s st) as [[this st2]|e|] eqn:Ef
  end; try discriminate.
  exfalso. revert Ef. apply forEachM_runs.
  intros key field this st2 Hin.
  apply (initialize_field_runs classes container _ n); [apply Hafresh| |].
  - rewrite Forall_forall in Em. specialize (Em _ Hin). simpl in Em.
    intros Hrel. destruct (Em Hrel) as [?|?]; [now left | right; lia].
  - intros m v st3 Hv. now apply IH.
Qed.

Lemma Blog_factory c : factory_relations Blog.classes c.
Proof.
  destruct c as [|[|[|c]]]; intros key field H Hr; simpl in H;
    repeat (destruct H as [H|H];
            [injection H as <- <-; (discriminate Hr || reflexivity)|]);
    destruct H.
Qed.

Lemma instantiate_terminates_witness :
  instantiate Blog.classes Blog.container 4 Blog.User ada_with_post [] <>
  OutOfFuel.
Proof.
  apply (instantiate_terminates Blog.classes Blog.container 4 Blog.User
           ada_with_post []).
  - exact Blog_builds_afresh.
  - exact Blog_factory.
  - vm_compute. lia.
Defined.

Lemma forEachM_app {A S} (f : S -> A -> string -> M S) o1 o2 s st :
  Lodash.forEachM f (o1 ++ o2) s st =
  bind (Lodash.forEachM f o1 s) (fun s1 => Lodash.forEachM f o2 s1) st.
Proof.
  revert s st. induction o1 as [|[k a] o1 IH]; intros s st; [reflexivity|].
  simpl. unfold bind. destruct (f s a k st) as [[s1 st1]| |];
    [apply IH | reflexivity | reflexivity].
Qed.

(** A relation with a default value is outside this.  When a has-one or
    belongs-to relation of a class to itself has a default that is
    truthy, no number placeholder and without own properties (an empty
    object, say), and the fields declared before it are attributes or
    relations left at [null], none under a name that instances inherit,
    then instantiating the class from a payload without own properties
    does not finish, whatever the fuel. *)
Theorem instantiate_runs_on classes container c before key field after :
  retained (classes c) = [] ->
  NoDup (keys (fields (classes c))) ->
  fields (classes c) = before ++ (key, field) :: after ->
  (forall k d, In (k, d) before ->
               Attributes.isRelation d = true -> Attributes.value d = VNull) ->
  (forall k, In k (keys before) -> ~ In k inherited_names) ->
  Attributes.type field = THasOne \/ Attributes.type field = TBelongsTo ->
  polymorphic field = false ->
  model_of field = Some (inl c) ->
  Lodash.entries (Attributes.value field) = [] ->
  truthy (Attributes.value field) = true ->
  Lodash.isNumber (Attributes.value field) = false ->
  (forall first, index0 (Attributes.value field) = Ok first ->
                 Lodash.isNumber first = false) ->
  forall fuel data st,
    Lodash.entries data = [] ->
    instantiate classes container fuel c data st = OutOfFuel.
Proof.
  intros Hown Hnd Hfields Hbefore Hpl Hty Hpoly Hmodel Hev Htr Hnum Hfirst.
  induction fuel as [|n IH]; intros data st He; [reflexivity|].
  simpl. unfold initialize, bind.
  rewrite mergeFields_merged_with, He, merged_with_nil;
    [| assumption | assumption | rewrite He; constructor].
  rewrite Hfields, forEachM_app. unfold bind.
  rewrite (forEachM_initialize_each classes container _ c
             (plain_property classes c)).
  2:{ simpl. rewrite Hfields in Hnd. unfold keys in *. rewrite map_app in Hnd.
      now apply NoDup_app_remove_r in Hnd. }
  2: exact intact_nil.
  2: exact Hpl.
  2:{ intros k d this Hin Hint. apply initialize_field_plain; auto.
      - now apply (Hbefore k).
      - apply Hpl. change k with (fst (k, d)). now apply in_map. }
  simpl. unfold bind. rewrite initialize_field_eq, current_own by assumption.
  cbv zeta.
  set (this := map _ before).
  assert (Hint : intact this).
  { apply plain_keys_intact. intros k Hk. apply Hpl.
    unfold this, keys in *. now rewrite map_map in Hk. }
  set (v := Attributes.value field) in *.
  assert (Hnull : is_null v = false) by (destruct v; auto; discriminate).
  destruct (index0_truthy v Htr) as [first Hidx]. specialize (Hfirst _ Hidx).
  assert (Hres : instance_resolveRelation classes container c this field =
                 Ok c).
  { rewrite instance_resolveRelation_Ok by assumption.
    unfold resolveRelation. now rewrite Hpoly, Hmodel. }
  rewrite Hnull.
  destruct field as [d m|t fk d p|t fk d p|t fk d p|t fk ok d p];
    simpl in Hty; destruct Hty as [Hty|Hty]; try discriminate Hty;
    cbn [Attributes.type]; cbv beta iota;
    fold v; rewrite Hnum; unfold bind, lift; rewrite Hidx; simpl;
    rewrite Hfirst, Hres; simpl; rewrite Htr, (IH v st Hev); reflexivity.
Qed.

Lemma instantiate_runs_on_witness :
  Lodash.entries VUndef = [] /\
  instantiate Loop.classes Loop.container 1000 0 VUndef [] = OutOfFuel.
Proof.
  split; [reflexivity|].
  refine (instantiate_runs_on Loop.classes Loop.container 0 [] "parent"
            (HasOne (inl 0) "parentId" (VObj []) false) []
            _ _ _ _ _ _ _ _ _ _ _ _ 1000 VUndef [] _).
  - reflexivity.
  - repeat constructor; simpl; tauto.
  - reflexivity.
  - intros k d [].
  - intros k [].
  - left; reflexivity.
  - reflexivity.
  - reflexivity.
  - reflexivity.
  - reflexivity.
  - reflexivity.
  - intros first [= <-]. reflexivity.
  - reflexivity.
Defined.

(** ** Serialization *)

Lemma mapValuesR_keys {A B} (f : A -> string -> result B) o out :
  Lodash.mapValuesR f o = Ok out -> keys out = keys o.
Proof.
  intros H. apply mapValuesR_Forall2 in H.
  induction H as [|ka kb l l' [Hk _] _ IH]; [reflexivity|].
  simpl. now rewrite Hk, IH.
Qed.

Lemma mapValuesR_ext_in {A B} (f g : A -> string -> result B) o :
  (forall k a, In (k, a) o -> f a k = g a k) ->
  Lodash.mapValuesR f o = Lodash.mapValuesR g o.
Proof.
  unfold Lodash.mapValuesR. induction o as [|[k a] o IH]; intros H; auto.
  simpl. rewrite (H k a) by now left.
  rewrite IH by (intros; apply H; now right). reflexivity.
Qed.

(** Serialization reads, of an instance, the declared fields of its
    class and the members [$toJson], [$self] and [constructor], and
    nothing else: two instances of a class that agree on these serialize
    alike. *)
Theorem toJson_declared_fields classes c props props' :
  (forall k,
     In k (keys (fields (classes c))) \/ In k toJson_members ->
     lookup k props' = lookup k props) ->
  toJson classes (VInst c props') = toJson classes (VInst c props).
Proof.
  intros H.
  assert (Hj : lookup "$toJson" props' = lookup "$toJson" props)
    by (apply H; right; simpl; auto).
  assert (Hs : instance_self c props' = instance_self c props).
  { unfold instance_self. rewrite !(H "$self"), !(H "constructor");
      [reflexivity | right; simpl; auto ..]. }
  destruct (lookup "$toJson" props) eqn:Ej.
  { cbn [toJson]. now rewrite Hj, Ej. }
  destruct (instance_self_cases c props) as [E|E].
  - rewrite !toJson_instance by congruence. f_equal.
    apply mapValuesR_ext_in. intros k a Hin. unfold emit, get. cbv zeta.
    rewrite H; [reflexivity|]. left.
    change k with (fst (k, a)). now apply in_map.
  - cbn [toJson]. now rewrite Hj, Ej, Hs, E.
Qed.

Lemma toJson_declared_fields_witness :
  toJson Blog.classes
    (VInst Blog.Profile [("theme", VStr "dark"); ("id", num 7);
                         ("bio", VStr "")]) =
  toJson Blog.classes (VInst Blog.Profile [("id", num 7); ("bio", VStr "")]).
Proof.
  apply (toJson_declared_fields Blog.classes Blog.Profile
           [("id", num 7); ("bio", VStr "")]
           [("theme", VStr "dark"); ("id", num 7); ("bio", VStr "")]).
  simpl. intros k [[<-|[<-|[]]]|[<-|[<-|[<-|[]]]]]; reflexivity.
Defined.

Lemma rmap_total {A B} (f : A -> result B) l :
  Forall (fun x => exists y, f x = Ok y) l -> exists ys, rmap f l = Ok ys.
Proof.
  intros H.
  destruct (rmap_Forall f (fun _ _ => True) l) as [ys [Hys _]]; [|eauto].
  eapply Forall_impl; [|exact H]. intros x [y Hy]. eauto.
Qed.

Lemma serializable_toJson classes n v :
  serializable classes n v -> exists json, toJson classes v = Ok json.
Proof.
  revert v. induction n as [|n IH]; intros v; [intros []|].
  destruct v as [| | | | | | |c props|]; try (intros []; fail).
  intros [Hm H]. rewrite toJson_instance;
    [|apply Hm; simpl; auto
     |apply instance_self_Ok; apply Hm; simpl; auto].
  destruct (mapValuesR_total (emit classes props) (fields (classes c)))
    as [out Hout].
  - intros key attr Hin. unfold emit. cbv zeta.
    destruct (truthy (get props key)) eqn:Et; simpl; [|eauto].
    destruct (H key attr Hin) as [Hf|Hs]; [congruence|].
    destruct (Attributes.type attr); eauto.
    destruct Hs as [l [-> Hl]].
    destruct (rmap_total (toJson classes) l) as [ys Hys].
    + eapply Forall_impl; [|exact Hl]. intros x Hx. now apply IH.
    + rewrite Hys. simpl. eauto.
  - rewrite Hout. simpl. eauto.
Qed.

Lemma type_current classes c key field st :
  Attributes.type (current classes c key field st) = Attributes.type field.
Proof.
  unfold current. destruct (lookup key (retained (classes c))); auto.
  destruct (store_get st l); auto. apply type_set_value.
Qed.

Lemma initialize_field_serializable classes container new n c this field key
  st this1 st1 :
  (forall m v st x st', new m v st = Ok (x, st') -> serializable classes n x) ->
  initialize_field classes container new c this field key st = Ok (this1, st1) ->
  truthy (get this1 key) = false \/
  match Attributes.type field with
  | THasOne | TBelongsTo => serializable classes n (get this1 key)
  | THasMany =>
      exists l, get this1 key = VArr l /\ Forall (serializable classes n) l
  | TAttr | THasManyBy => True
  end.
Proof.
  intros Hnew. rewrite <- (type_current classes c key field st).
  rewrite initialize_field_eq. cbv zeta.
  set (field' := current classes c key field st).
  destruct (is_null (Attributes.value field')).
  { intros H. monad_inv H. rewrite get_set_same. now left. }
  destruct field' as [v m|t fk v p|t fk v p|t fk v p|t fk ok v p]; simpl;
    intros H.
  { now right. }
  all: destruct (Lodash.isNumber v);
    [monad_inv H; rewrite get_set_same; now left|].
  all: monad_inv H; apply lift_Ok in Ha as [_ ->].
  all: destruct (Lodash.isNumber a);
    [monad_inv H; rewrite get_set_same; now left|].
  all: monad_inv H; apply lift_Ok in Ha as [_ ->].
  all: destruct (truthy v); [|monad_inv H; rewrite get_set_same; now left].
  all: try (monad_inv H; rewrite get_set_same; right; eapply Hnew;
            eassumption).
  all: try (now right).
  destruct v; try discriminate H; monad_inv H; rewrite get_set_same.
  right. eexists. split; [reflexivity|].
  eapply mapM_Forall; [|eassumption]. intros; eapply Hnew; eassumption.
Qed.

Lemma mergeFields_same_but_value classes c data st merged st' :
  mergeFields classes c data st = Ok (merged, st') ->
  Forall2 same_but_value (fields (classes c)) merged.
Proof.
  unfold mergeFields. destruct (negb (truthy data)).
  - intros H. monad_inv H. apply same_but_value_refl.
  - intros H.
    destruct (merge_only_values classes c (Lodash.entries data)
                (fields (classes c)) st (same_but_value_refl _))
      as (merged' & st'' & Hm & Hs).
    unfold merge_callback in Hm. rewrite H in Hm. now injection Hm as <- <-.
Qed.

Lemma same_but_value_lookup fields merged key decl :
  Forall2 same_but_value fields merged ->
  lookup key fields = Some decl ->
  exists w, lookup key merged = Some (Attributes.set_value decl w).
Proof.
  induction 1 as [|[k d] [k' f] l l' [Hk [w Hw]] _ IH]; simpl in *;
    [discriminate|].
  subst k'. destruct (String.eqb key k); [|exact IH].
  intros [= <-]. exists w. now rewrite Hw.
Qed.

Lemma instantiate_serializable classes container fuel c data st inst st' :
  (forall c, NoDup (keys (fields (classes c)))) ->
  serializable_names classes ->
  instantiate classes container fuel c data st = Ok (inst, st') ->
  serializable classes fuel inst.
Proof.
  intros Hnd Hnames. revert c data st inst st'.
  induction fuel as [|n IH]; intros c data st inst st' H; [discriminate|].
  pose proof H as Hi.
  apply instantiate_Ok in H as (n' & merged & st1 & this & [= <-] & Hm & Hf & ->).
  simpl. split.
  { intros k Hk. apply lookup_not_key. intros Hin.
    apply (forEachM_initialize_keys _ _ _ _ _ _ _ _ _ k Hf) in Hin.
    destruct Hin as [[]|Hin].
    rewrite (mergeFields_keys _ _ _ _ _ _ Hm) in Hin.
    apply (Hnames c k); [now right | exact Hin]. }
  intros key decl Hin.
  assert (Hl := In_lookup_NoDup _ _ _ (Hnd c) Hin).
  destruct (same_but_value_lookup _ _ _ _
              (mergeFields_same_but_value _ _ _ _ _ _ Hm) Hl) as [w Hw].
  destruct (instantiate_assigns classes container _ _ _ _ _ _ _ _ _ _
              Hi (Hnd c) Hm Hw)
    as (n0 & this0 & this1 & st0 & this2 & st2 & [= <-] & [= <-] & H1 & ->).
  rewrite <- (type_set_value decl w).
  eapply initialize_field_serializable; [|exact H1].
  intros m v st3 x st4 Hx. eapply IH. exact Hx.
Qed.

(** What [instantiate] returns, [toJson] serializes: on any program that
    declares no field twice and none under the name of a member that
    [$toJson] uses ([$toJson], [$self], [constructor]) or under
    [__proto__], serialization of a new instance returns an object with
    the declared fields as keys and throws nothing. *)
Theorem toJson_after_instantiate classes container fuel c data st inst st' :
  (forall c, NoDup (keys (fields (classes c)))) ->
  serializable_names classes ->
  instantiate classes container fuel c data st = Ok (inst, st') ->
  exists o,
    toJson classes inst = Ok (VObj o) /\ keys o = keys (fields (classes c)).
Proof.
  intros Hnd Hnames Hi.
  assert (Hs := instantiate_serializable _ _ _ _ _ _ _ _ Hnd Hnames Hi).
  apply instantiate_Ok in Hi as (n & merged & st1 & this & -> & _ & _ & ->).
  destruct (serializable_toJson _ _ _ Hs) as [json Hj].
  rewrite Hj. destruct (toJson_Ok _ _ _ _ Hj) as [H1 H2].
  rewrite toJson_instance in Hj by assumption.
  apply rbind_Ok in Hj as [o [Ho [= <-]]].
  exists o. split; [reflexivity|]. now apply mapValuesR_keys in Ho.
Qed.

Lemma Blog_serializable_names : serializable_names Blog.classes.
Proof.
  intros c k Hk Hin. apply (Blog_plain_names c k Hin).
  simpl in Hk. simpl. intuition.
Qed.

Lemma Blog_keys c : NoDup (keys (fields (Blog.classes c))).
Proof.
  destruct c as [|[|[|c]]]; repeat constructor; simpl; intuition discriminate.
Qed.

Lemma toJson_after_instantiate_witness :
  exists o,
    toJson Blog.classes ada_instance = Ok (VObj o) /\
    keys o = keys (fields (Blog.classes Blog.User)).
Proof.
  apply (toJson_after_instantiate Blog.classes Blog.container 2 Blog.User
           ada_with_post [] ada_instance []).
  - exact Blog_keys.
  - exact Blog_serializable_names.
  - reflexivity.
Defined.

(** On a class that retains no descriptor and declares attributes only,
    none with a mutator or under a name that instances inherit, an
    instance holds the payload's own properties over the declared
    defaults, and serializing it returns just that object. *)
Theorem toJson_instantiate_attributes classes container n c data st :
  retained (classes c) = [] ->
  NoDup (keys (fields (classes c))) ->
  plain_names classes c ->
  NoDup (keys (Lodash.entries data)) ->
  (forall key field,
     In (key, field) (fields (classes c)) ->
     Attributes.type field = TAttr /\ own_mutator field = None /\
     lookup key (mutators (classes c)) = None) ->
  let json := payload_over_defaults (fields (classes c)) (Lodash.entries data) in
  instantiate classes container (S n) c data st = Ok (VInst c json, st) /\
  toJson classes (VInst c json) = Ok (VObj json).
Proof.
  intros Hown Hnd Hpl Hno Hattr json.
  assert (Hk : keys json = keys (fields (classes c))).
  { unfold json, payload_over_defaults, keys. now rewrite map_map. }
  split.
  - simpl. unfold initialize, bind.
    rewrite mergeFields_merged_with by assumption.
    rewrite (forEachM_initialize_each classes container _ c
               (plain_property classes c)).
    + simpl. unfold ret. do 3 f_equal.
      unfold json, payload_over_defaults, merged_with. rewrite map_map.
      apply map_ext_in. intros [k d] Hin. simpl. f_equal.
      destruct (Hattr k d Hin) as (Hty & Hm & Hms).
      unfold plain_property, mutate, mutator_for.
      destruct d as [v m| | | |]; try discriminate Hty. simpl in Hm. subst m.
      destruct (lookup k (Lodash.entries data)) as [w|]; simpl;
        rewrite Hms;
        match goal with
        | |- (if is_null ?x then _ else _) = _ =>
            destruct x; reflexivity
        end.
    + simpl. now rewrite keys_merged_with.
    + exact intact_nil.
    + rewrite keys_merged_with. exact Hpl.
    + intros key field this Hin Hint. apply initialize_field_plain; auto.
      * intros Hrel. exfalso.
        unfold merged_with in Hin.
        apply in_map_iff in Hin as [[k d] [Heq Hin]].
        simpl in Heq. injection Heq as <- <-.
        destruct (Hattr k d Hin) as (Hty & _).
        destruct d; try discriminate Hty.
        destruct (lookup k (Lodash.entries data)); discriminate Hrel.
      * apply Hpl. rewrite <- (keys_merged_with _ (Lodash.entries data)).
        change key with (fst (key, field)). now apply in_map.
  - destruct (plain_keys_intact json) as [Hint Hj].
    { rewrite Hk. exact Hpl. }
    rewrite toJson_instance by (auto using intact_self).
    rewrite (mapValuesR_all (emit classes json) (fun k _ => get json k)).
    + simpl. do 2 f_equal. now apply object_by_keys.
    + intros k a Hin. unfold emit. cbv zeta.
      destruct (Hattr k a Hin) as (-> & _).
      now destruct (truthy (get json k)).
Qed.

Lemma toJson_instantiate_attributes_witness :
  instantiate Blog.classes Blog.container 1 Blog.Profile profile_payload [] =
    Ok (VInst Blog.Profile [("id", num 7); ("bio", VNull)], []) /\
  toJson Blog.classes (VInst Blog.Profile [("id", num 7); ("bio", VNull)]) =
    Ok (VObj [("id", num 7); ("bio", VNull)]).
Proof.
  apply (toJson_instantiate_attributes Blog.classes Blog.container 0
           Blog.Profile profile_payload []).
  - reflexivity.
  - apply Blog_keys.
  - exact (Blog_plain_names Blog.Profile).
  - repeat constructor; simpl; intuition discriminate.
  - simpl. intros key field [H|[H|[]]]; injection H as <- <-; auto.
Defined.

(** ** Instantiation: what relations hold *)

Lemma instantiate_is_instance classes container fuel m v st x st' :
  instantiate classes container fuel m v st = Ok (x, st') ->
  is_instance_of m x.
Proof.
  intros H. apply instantiate_Ok in H as (n & merged & st1 & this & _ & _ & _ & ->).
  reflexivity.
Qed.

Lemma is_instance_of_instance m x : is_instance_of m x -> is_instance x.
Proof. destruct x; try discriminate. constructor. Qed.

Lemma mapM_Forall2_Ok {A B} (f : A -> M B) l st ys st' :
  mapM f l st = Ok (ys, st') ->
  Forall2 (fun x y => exists st0 st1, f x st0 = Ok (y, st1)) l ys.
Proof.
  revert st ys. induction l as [|x l IH]; intros st ys H.
  - simpl in H. monad_inv H. constructor.
  - apply mapM_cons_Ok in H as (y & st1 & ys' & Hy & Hys & ->).
    constructor; eauto.
Qed.

(** What the callback assigns for a relation, case by case. *)
Lemma initialize_field_relation classes container new c this field key st
  this1 st1 :
  Attributes.isRelation field = true ->
  initialize_field classes container new c this field key st = Ok (this1, st1) ->
  let field' := current classes c key field st in
  let v := Attributes.value field' in
  get this1 key = VNull \/
  (embedded v /\
   exists m,
     resolveRelation classes container c field' = Ok m /\
     match Attributes.type field with
     | THasOne | TBelongsTo => new m v st = Ok (get this1 key, st1)
     | THasMany | THasManyBy =>
         exists l xs, v = VArr l /\ mapM (new m) l st = Ok (xs, st1) /\
                      get this1 key = VArr xs
     | TAttr => False
     end).
Proof.
  intros Hrel. rewrite <- (type_current classes c key field st).
  assert (Hrel' : Attributes.isRelation (current classes c key field st) = true).
  { unfold Attributes.isRelation in *. now rewrite type_current. }
  rewrite initialize_field_eq. cbv zeta.
  set (field' := current classes c key field st) in *.
  unfold embedded.
  destruct (is_null (Attributes.value field')).
  { intros H. monad_inv H. rewrite get_set_same. now left. }
  destruct field' as [v m|t fk v p|t fk v p|t fk v p|t fk ok v p];
    try discriminate Hrel'; simpl; intros H.
  all: destruct (Lodash.isNumber v) eqn:En;
    [monad_inv H; rewrite get_set_same; now left|].
  all: monad_inv H; apply lift_Ok in Ha as [Hidx ->].
  all: destruct (Lodash.isNumber a) eqn:Ea;
    [monad_inv H; rewrite get_set_same; now left|].
  all: monad_inv H; apply lift_Ok in Ha as [Hres ->].
  all: destruct (truthy v) eqn:Et;
    [|monad_inv H; rewrite get_set_same; now left].
  all: right; split;
    [split; [reflexivity|]; split; [reflexivity|];
     intros first Hf; rewrite Hidx in Hf; now injection Hf as <-|].
  all: apply instance_resolveRelation_inv in Hres.
  all: eexists; split; [exact Hres|].
  1, 2: monad_inv H; rewrite get_set_same; assumption.
  all: destruct v; try discriminate H; monad_inv H; rewrite get_set_same;
    eauto.
Qed.

(** Every relation property of a new instance is [null], an instance
    (has-one, belongs-to) or an array of instances (has-many,
    has-many-by): no raw id is left in a relation. *)
Theorem instantiate_relation_shape
  classes container fuel c data st inst st' key decl :
  NoDup (keys (fields (classes c))) ->
  instantiate classes container fuel c data st = Ok (inst, st') ->
  In (key, decl) (fields (classes c)) ->
  Attributes.isRelation decl = true ->
  relation_shape (Attributes.type decl) (get (Lodash.entries inst) key).
Proof.
  intros Hnd Hi Hin Hrel. pose proof Hi as Hi'.
  apply instantiate_Ok in Hi' as (n & merged & st1 & this & -> & Hm & _ & ->).
  assert (Hl := In_lookup_NoDup _ _ _ Hnd Hin).
  destruct (same_but_value_lookup _ _ _ _
              (mergeFields_same_but_value _ _ _ _ _ _ Hm) Hl) as [w Hw].
  destruct (instantiate_assigns classes container _ _ _ _ _ _ _ _ _ _
              Hi Hnd Hm Hw)
    as (n0 & this0 & this1 & st0 & this2 & st2 & [= <-] & [= <-] & H1 & H2).
  simpl. rewrite H2.
  apply initialize_field_relation in H1;
    [|unfold Attributes.isRelation in *; now rewrite type_set_value].
  rewrite type_set_value in H1. unfold relation_shape.
  destruct H1 as [H1|[_ [m [_ H1]]]]; [now left|]. right.
  destruct (Attributes.type decl); try exact H1.
  - apply instantiate_is_instance in H1.
    eapply is_instance_of_instance; eassumption.
  - apply instantiate_is_instance in H1.
    eapply is_instance_of_instance; eassumption.
  - destruct H1 as (l & xs & _ & Hmap & ->). exists xs. split; [reflexivity|].
    eapply mapM_Forall; [|exact Hmap]. intros x st3 y st4 Hx.
    apply instantiate_is_instance in Hx.
    eapply is_instance_of_instance; eassumption.
  - destruct H1 as (l & xs & _ & Hmap & ->). exists xs. split; [reflexivity|].
    eapply mapM_Forall; [|exact Hmap]. intros x st3 y st4 Hx.
    apply instantiate_is_instance in Hx.
    eapply is_instance_of_instance; eassumption.
Qed.

Lemma instantiate_relation_shape_witness :
  relation_shape THasMany (get (Lodash.entries ada_instance) "posts").
Proof.
  apply (instantiate_relation_shape Blog.classes Blog.container 2 Blog.User
           ada_with_post [] ada_instance [] "posts"
           (HasMany (inl Blog.Post) "userId" VNull false)).
  - exact Blog_User_keys.
  - reflexivity.
  - simpl. auto.
  - reflexivity.
Defined.

(** On a class that retains no descriptor, a relation that the payload
    gives embedded data holds what [new] of the resolved model makes of
    it: for has-one and belongs-to the instance of the embedded value,
    for has-many and has-many-by the instances of the elements of the
    array, as many and in the same order. *)
Theorem instantiate_nested
  classes container fuel c data st this st' key decl v :
  retained (classes c) = [] ->
  NoDup (keys (fields (classes c))) ->
  NoDup (keys (Lodash.entries data)) ->
  instantiate classes container fuel c data st = Ok (VInst c this, st') ->
  lookup key (fields (classes c)) = Some decl ->
  Attributes.isRelation decl = true ->
  lookup key (Lodash.entries data) = Some v ->
  embedded v ->
  exists n m,
    fuel = S n /\
    resolveRelation classes container c (Attributes.set_value decl v) = Ok m /\
    match Attributes.type decl with
    | THasOne | TBelongsTo =>
        exists st0 st1,
          instantiate classes container n m v st0 = Ok (get this key, st1)
    | THasMany | THasManyBy =>
        exists l insts,
          v = VArr l /\ get this key = VArr insts /\
          Forall2 (fun x inst =>
                     exists st0 st1,
                       instantiate classes container n m x st0 =
                       Ok (inst, st1)) l insts
    | TAttr => False
    end.
Proof.
  intros Hown Hnd Hno Hi Hl Hrel Hv (Htr & Hnum & Hfirst).
  assert (Hm : lookup key (merged_with (fields (classes c))
                            (Lodash.entries data)) =
               Some (Attributes.set_value decl v)).
  { unfold merged_with.
    rewrite (lookup_map (fun k d => match lookup k (Lodash.entries data) with
                                    | Some v => Attributes.set_value d v
                                    | None => d
                                    end)), Hl, Hv. reflexivity. }
  destruct (instantiate_assigns classes container _ _ _ _ _ _ _ _ _ _
              Hi Hnd (mergeFields_merged_with classes c data st Hown Hnd Hno)
              Hm)
    as (n & this0 & this1 & st0 & this2 & st2 & -> & [= <-] & H1 & H2).
  exists n.
  assert (Hnn : get this2 key <> VNull).
  { intros Heq.
    rewrite initialize_field_eq, current_own in H1 by assumption.
    cbv zeta in H1. rewrite value_set_value, type_set_value in H1.
    assert (Hnull : is_null v = false) by (destruct v; auto; discriminate).
    destruct (index0_truthy v Htr) as [first Hidx]. specialize (Hfirst _ Hidx).
    rewrite Hnull in H1.
    destruct decl as [d m|t fk d p|t fk d p|t fk d p|t fk ok d p];
      try discriminate Hrel;
      cbn [Attributes.set_value Attributes.type] in H1;
      rewrite Hnum in H1; unfold bind, lift in H1; rewrite Hidx in H1;
      simpl in H1; rewrite Hfirst in H1;
      match type of H1 with
      | context [instance_resolveRelation ?a ?b ?c ?t ?f] =>
          destruct (instance_resolveRelation a b c t f) as [m'| |];
          simpl in H1; try discriminate H1
      end;
      rewrite Htr in H1.
    1, 2: destruct (instantiate classes container n m' v st0)
            as [[x st3]| |] eqn:Ex; try discriminate H1;
          injection H1 as <- <-; rewrite get_set_same in Heq;
          apply instantiate_is_instance in Ex; subst x; discriminate Ex.
    all: destruct v; try discriminate H1;
      match type of H1 with
      | context [mapM ?f ?l ?s] =>
          destruct (mapM f l s) as [[xs st3]| |]; try discriminate H1
      end;
      injection H1 as <- <-; rewrite get_set_same in Heq; discriminate Heq. }
  apply initialize_field_relation in H1;
    [|unfold Attributes.isRelation in *; now rewrite type_set_value].
  rewrite current_own, value_set_value, type_set_value in H1 by assumption.
  destruct H1 as [H1|[_ [m [Hres H1]]]]; [contradiction|].
  exists m. split; [reflexivity|]. split; [exact Hres|].
  rewrite H2.
  destruct (Attributes.type decl); try exact H1; eauto.
  - destruct H1 as (l & xs & -> & Hmap & ->). exists l, xs.
    split; [reflexivity|]. split; [reflexivity|].
    eapply mapM_Forall2_Ok; eassumption.
  - destruct H1 as (l & xs & -> & Hmap & ->). exists l, xs.
    split; [reflexivity|]. split; [reflexivity|].
    eapply mapM_Forall2_Ok; eassumption.
Qed.

Lemma instantiate_nested_witness :
  exists n m,
    2 = S n /\
    resolveRelation Blog.classes Blog.container Blog.User
      (Attributes.set_value (HasMany (inl Blog.Post) "userId" VNull false)
         (VArr [VObj [("id", num 10); ("title", VStr "Hi")]])) = Ok m /\
    exists l insts,
      VArr [VObj [("id", num 10); ("title", VStr "Hi")]] = VArr l /\
      get (Lodash.entries ada_instance) "posts" = VArr insts /\
      Forall2 (fun x inst =>
                 exists st0 st1,
                   instantiate Blog.classes Blog.container n m x st0 =
                   Ok (inst, st1)) l insts.
Proof.
  apply (instantiate_nested Blog.classes Blog.container 2 Blog.User
           ada_with_post [] (Lodash.entries ada_instance) [] "posts"
           (HasMany (inl Blog.Post) "userId" VNull false)
           (VArr [VObj [("id", num 10); ("title", VStr "Hi")]])).
  - reflexivity.
  - exact Blog_User_keys.
  - repeat constructor; simpl; intuition discriminate.
  - reflexivity.
  - reflexivity.
  - reflexivity.
  - reflexivity.
  - split; [reflexivity|]. split; [reflexivity|].
    intros first [= <-]. reflexivity.
Defined.

(** ** Instantiation: fields named like inherited members *)

Lemma instance_self_shadowed c this :
  In "$self" (keys this) \/ In "constructor" (keys this) ->
  instance_self c this = Throw TypeError.
Proof.
  intros H. unfold instance_self.
  destruct (lookup "$self" this) eqn:E1; [reflexivity|].
  destruct (lookup "constructor" this) eqn:E2; [reflexivity|].
  exfalso. destruct H as [H|H]; apply lookup_In_keys in H; contradiction.
Qed.

Lemma forEachM_app_Ok {A S} (f : S -> A -> string -> M S) o1 o2 s st s' st' :
  Lodash.forEachM f (o1 ++ o2) s st = Ok (s', st') ->
  exists s1 st1,
    Lodash.forEachM f o1 s st = Ok (s1, st1) /\
    Lodash.forEachM f o2 s1 st1 = Ok (s', st').
Proof. rewrite forEachM_app. intros H. now apply bind_Ok in H. Qed.

(** An attribute named like a member of [Object.prototype], without a
    mutator of its own or in [mutators()], is passed through that member:
    on a class that retains no descriptor, an instance exists only under
    the names [toString], [constructor] and [isPrototypeOf], and holds
    ["[object Undefined]"], the value made an object, respectively
    [false] (for a value that is no object) whatever the payload gave;
    under every other such name [$initialize] throws. *)
Theorem instantiate_inherited_mutator
  classes container fuel c data st key v inst st' :
  retained (classes c) = [] ->
  NoDup (keys (fields (classes c))) ->
  NoDup (keys (Lodash.entries data)) ->
  lookup key (merged_with (fields (classes c)) (Lodash.entries data)) =
    Some (Attr v None) ->
  v <> VNull ->
  lookup key (mutators (classes c)) = None ->
  In key Object_prototype ->
  instantiate classes container fuel c data st = Ok (inst, st') ->
  (key = "toString" /\
   get (Lodash.entries inst) key = VStr "[object Undefined]") \/
  (key = "constructor" /\ get (Lodash.entries inst) key = Object_ v) \/
  (key = "isPrototypeOf" /\ is_object v = false /\
   get (Lodash.entries inst) key = VBool false).
Proof.
  intros Hown Hnd Hno Hl Hv Hmut Hin Hi.
  destruct (instantiate_assigns classes container _ _ _ _ _ _ _ _ _ _
              Hi Hnd (mergeFields_merged_with classes c data st Hown Hnd Hno) Hl)
    as (n & this & this0 & st0 & this1 & st2 & -> & -> & H1 & H2).
  simpl. rewrite H2.
  rewrite (initialize_field_attr classes container _ c this0 _ key st0 v None)
    in H1; [|now apply current_own | assumption].
  apply bind_Ok in H1 as (x & st3 & Hx & H1).
  apply lift_Ok in Hx as [Hx ->]. injection H1 as <- <-.
  rewrite get_set_same.
  unfold mutated in Hx.
  destruct (instance_self_cases c this0) as [E|E]; rewrite E in Hx;
    [|discriminate].
  simpl in Hx. unfold mutators_get in Hx. rewrite Hmut in Hx.
  rewrite (proj2 (includes_In Object_prototype key) Hin) in Hx.
  simpl in Hx. unfold Object_prototype_call in Hx.
  destruct (String.eqb key "toString") eqn:E1.
  { apply String.eqb_eq in E1. injection Hx as <-. now left. }
  destruct (String.eqb key "constructor") eqn:E2.
  { apply String.eqb_eq in E2. injection Hx as <-. right. now left. }
  destruct (String.eqb key "isPrototypeOf") eqn:E3; [|discriminate].
  apply String.eqb_eq in E3.
  destruct (is_object v) eqn:Eo; [discriminate|].
  injection Hx as <-. right. right. auto.
Qed.

Lemma instantiate_inherited_mutator_witness :
  ("toString" = "toString" /\
   get (Lodash.entries (VInst 0 [("toString", VStr "[object Undefined]")]))
     "toString" = VStr "[object Undefined]") \/
  ("toString" = "constructor" /\
   get (Lodash.entries (VInst 0 [("toString", VStr "[object Undefined]")]))
     "toString" = Object_ (VStr "hi")) \/
  ("toString" = "isPrototypeOf" /\ is_object (VStr "hi") = false /\
   get (Lodash.entries (VInst 0 [("toString", VStr "[object Undefined]")]))
     "toString" = VBool false).
Proof.
  apply (instantiate_inherited_mutator Named.classes Named.container 1 0
           (VObj [("toString", VStr "hi")]) [] "toString" (VStr "hi")
           (VInst 0 [("toString", VStr "[object Undefined]")]) []).
  - reflexivity.
  - repeat constructor; simpl; tauto.
  - repeat constructor; simpl; tauto.
  - reflexivity.
  - discriminate.
  - reflexivity.
  - simpl. tauto.
  - reflexivity.
Defined.

(** A field named [$self] or [constructor] takes the method's place on
    the instance: on a class that retains no descriptor, once such a
    field has been assigned, the next attribute that has a value other
    than [null] and no mutator of its own, and the next relation that is
    given embedded data, make [$initialize] throw, so that the class is
    never instantiated from such a payload. *)
Theorem instantiate_shadowed_method
  classes container fuel c data st before key field after :
  retained (classes c) = [] ->
  NoDup (keys (fields (classes c))) ->
  NoDup (keys (Lodash.entries data)) ->
  merged_with (fields (classes c)) (Lodash.entries data) =
    before ++ (key, field) :: after ->
  In "$self" (keys before) \/ In "constructor" (keys before) ->
  (exists v, field = Attr v None /\ v <> VNull) \/
  (Attributes.isRelation field = true /\ embedded (Attributes.value field)) ->
  forall inst st',
    instantiate classes container fuel c data st <> Ok (inst, st').
Proof.
  intros Hown Hnd Hno Hm Hsh Hfield inst st' Hi.
  apply instantiate_Ok in Hi as (n & merged & st1 & this & -> & Hmg & Hf & ->).
  rewrite mergeFields_merged_with in Hmg by assumption.
  injection Hmg as <- <-. rewrite Hm in Hf.
  apply forEachM_app_Ok in Hf as (this1 & st2 & Hb & Hf).
  apply forEachM_cons_Ok in Hf as (this2 & st3 & H1 & _).
  assert (Hs : instance_self c this1 = Throw TypeError).
  { apply instance_self_shadowed.
    destruct Hsh as [H|H]; [left|right];
      apply (forEachM_initialize_keys _ _ _ _ _ _ _ _ _ _ Hb); now right. }
  rewrite initialize_field_eq, current_own in H1 by assumption.
  cbv zeta in H1.
  destruct Hfield as [(v & -> & Hv)|(Hrel & Htr & Hnum & Hfirst)].
  - simpl in H1. destruct (is_null v) eqn:En;
      [apply is_null_true in En; contradiction|].
    unfold bind, lift, mutated in H1. rewrite Hs in H1. discriminate H1.
  - set (v := Attributes.value field) in *.
    assert (Hnull : is_null v = false) by (destruct v; auto; discriminate).
    destruct (index0_truthy v Htr) as [first Hidx].
    specialize (Hfirst _ Hidx). rewrite Hnull in H1.
    assert (Hres : instance_resolveRelation classes container c this1 field =
                   Throw TypeError).
    { unfold instance_resolveRelation.
      destruct (lookup "$resolveRelation" this1); [reflexivity|].
      now rewrite Hs. }
    destruct field as [d m|t fk d p|t fk d p|t fk d p|t fk ok d p];
      try discriminate Hrel;
      cbn [Attributes.type] in H1; cbv beta iota in H1; fold v in H1;
      rewrite Hnum in H1; unfold bind, lift in H1; rewrite Hidx in H1;
      simpl in H1; rewrite Hfirst, Hres in H1; discriminate H1.
Qed.

Lemma instantiate_shadowed_method_witness :
  ~ exists inst st',
      instantiate Shadow.classes Shadow.container 1 0
        (VObj [("name", VStr "Ada")]) [] = Ok (inst, st').
Proof.
  intros (inst & st' & E). revert E.
  apply (instantiate_shadowed_method Shadow.classes Shadow.container 1 0
           (VObj [("name", VStr "Ada")]) []
           [("constructor", Attr VNull None)] "name" (Attr (VStr "Ada") None)
           []).
  - reflexivity.
  - repeat constructor; simpl; intuition discriminate.
  - repeat constructor; simpl; tauto.
  - reflexivity.
  - right. simpl. tauto.
  - left. exists (VStr "Ada"). split; [reflexivity | discriminate].
Defined.
